(** * Configuration manager: service document to Envoy snapshot

    Shallow embedding of [src/go/configmanager/config_manager.go].

    Go values are modelled as follows.
    - A Go [string] is a [string] (a sequence of bytes in both worlds).
    - A protobuf message is a record; a message pointer that the getters
      treat as the empty message when it is [nil] is the record itself.
    - A protobuf [oneof] is an inductive type with one constructor per
      variant and one for the unset case.
    - A Go [map[string]*T] is a [gmap string T]; every key of [rulesMap]
      owns the rule it points to, so an assignment through the pointer is
      an insert at that key.
    - A function that returns [(value, error)] and that may dereference a
      [nil] pointer returns an [Outcome].  So do the calls that leave the
      process (the key-set fetch, the token fetch, the service-management
      call): [fetchJwk] and [callServiceManagement] drop the error of
      [http.NewRequest] and go on with the [nil] request, so on an address
      that does not parse they panic.
    - [util.MessageToStruct] renders a message as a [types.Struct] through
      its JSON form.  The model keeps the message in place of the struct.
      The strings of a message that come from the service document are valid
      UTF-8 and the rendering keeps them; a fetched key set is raw bytes, and
      what the rendering makes of it is [jsonString] of it.  Where the code
      looks at the error of the conversion (in [makeSnapshot]) the model has
      the error too. *)

From Stdlib Require Import String Ascii ZArith.
From stdpp Require Import base option list gmap strings fin_maps.

Local Open Scope string_scope.
Local Open Scope list_scope.

(** ** Results of Go calls *)

Inductive Outcome (A : Type) : Type :=
| Ok (a : A)          (* normal return, [err == nil] *)
| Err (msg : string)  (* [err != nil] *)
| Panic.              (* run-time panic: nil pointer dereference *)

Arguments Ok {A} a.
Arguments Err {A} msg.
Arguments Panic {A}.

#[global] Instance Outcome_bind : MBind Outcome := fun A B k x =>
  match x with
  | Ok a => k a
  | Err e => Err e
  | Panic => Panic
  end.

#[global] Instance Outcome_ret : MRet Outcome := fun A a => Ok a.

(** A [for _, x := range xs] loop whose body may fail. *)
Fixpoint foldM {A S : Type} (body : S -> A -> Outcome S) (xs : list A) (s : S)
  : Outcome S :=
  match xs with
  | [] => Ok s
  | x :: xs' => s' ← body s x; foldM body xs' s'
  end.

Definition is_Ok {A : Type} (x : Outcome A) : Prop := exists a, x = Ok a.

(** ** Package [strings] and [fmt] *)

Module strings.

(** [strings.Split(s, sep)] for a one-byte separator: the pieces of [s]
    between the occurrences of [sep]; one more piece than occurrences. *)
Fixpoint Split (s : string) (sep : ascii) : list string :=
  match s with
  | EmptyString => [EmptyString]
  | String c s' =>
      if Ascii.eqb c sep then EmptyString :: Split s' sep
      else match Split s' sep with
           | [] => [String c EmptyString]
           | seg :: segs => String c seg :: segs
           end
  end.

(** [len(s) >= len(suffix) && s[len(s)-len(suffix):] == suffix] *)
Definition HasSuffix (s suffix : string) : bool :=
  let n := String.length s in
  let k := String.length suffix in
  (k <=? n)%nat && String.eqb (substring (n - k) k s) suffix.

(** [strings.Replace(s, old, new, 1)] for a non-empty [old]. *)
Fixpoint Replace1 (s old new : string) : string :=
  if String.prefix old s
  then new +:+ substring (String.length old) (String.length s - String.length old) s
  else match s with
       | EmptyString => EmptyString
       | String c s' => String c (Replace1 s' old new)
       end.

End strings.

Definition dot : ascii := "."%char.
Definition comma : ascii := ","%char.

(** [fmt.Sprintf("/%s/%s", a, b)] *)
Definition Sprintf_path (a b : string) : string := "/" +:+ a +:+ "/" +:+ b.

(** [fmt.Sprintf("%s.%s", a, b)] *)
Definition Sprintf_selector (a b : string) : string := a +:+ "." +:+ b.

(** [m[len(m)-1]]: indexing panics on an empty slice. *)
Definition last_elem (m : list string) : Outcome string :=
  match last m with
  | Some x => Ok x
  | None => Panic
  end.

(** ** Input: the service configuration document *)

(** [google.golang.org/genproto/protobuf/api] *)
Module api.
Record Method := { Method_Name : string }.

Record Api := {
  Name : string;
  Methods : list Method;
  (** [GetSourceContext().GetFileName()], empty without a source context *)
  SourceContext_FileName : string;
}.
End api.

(** [google.golang.org/genproto/googleapis/api/annotations] *)
Module annotations.
(** The [pattern] oneof of [HttpRule]. *)
Inductive isHttpRule_Pattern :=
| HttpRule_Get (Get : string)
| HttpRule_Put (Put : string)
| HttpRule_Post (Post : string)
| HttpRule_Delete (Delete : string)
| HttpRule_Patch (Patch : string)
| HttpRule_Custom (kind path : string)
| HttpRule_unset.

Record HttpRule := {
  Selector : string;
  Pattern : isHttpRule_Pattern;
}.
End annotations.

(** [github.com/google/go-genproto/googleapis/api/servicemanagement/v1] *)
Module servicemanagement.
Inductive ConfigFile_FileType :=
| ConfigFile_FILE_TYPE_UNSPECIFIED
| ConfigFile_SERVICE_CONFIG_YAML
| ConfigFile_OPEN_API_JSON
| ConfigFile_OPEN_API_YAML
| ConfigFile_FILE_DESCRIPTOR_SET_PROTO
| ConfigFile_PROTO_FILE.

Record ConfigFile := {
  FilePath : string;
  FileContents : string;
  FileType : ConfigFile_FileType;
}.

Definition empty : ConfigFile :=
  {| FilePath := ""; FileContents := "";
     FileType := ConfigFile_FILE_TYPE_UNSPECIFIED |}.
End servicemanagement.

(** A [protobuf.Any] of [source_info.source_files]: either it packs a
    [ConfigFile] or it packs something else. *)
Inductive Any :=
| Any_ConfigFile (f : servicemanagement.ConfigFile)
| Any_other (type_url : string).

(** [ptypes.UnmarshalAny(sourceFile, configFile)] with its error dropped:
    on a type mismatch the target keeps its zero value. *)
Definition UnmarshalAny (a : Any) : servicemanagement.ConfigFile :=
  match a with
  | Any_ConfigFile f => f
  | Any_other _ => servicemanagement.empty
  end.

(** [google.golang.org/genproto/googleapis/api/serviceconfig] *)
Module conf.
Record AuthProvider := {
  Id : string;
  Issuer : string;
  JwksUri : string;
  Audiences : string;
}.

Record AuthRequirement := {
  ProviderId : string;
  Req_Audiences : string;
}.

Record AuthenticationRule := {
  Auth_Selector : string;
  Requirements : list AuthRequirement;
}.

Record Authentication := {
  Rules : list AuthenticationRule;
  Providers : list AuthProvider;
}.

Record UsageRule := {
  Usage_Selector : string;
  AllowUnregisteredCalls : bool;
}.

Record Service := {
  Name : string;
  Apis : list api.Api;
  (** [GetSourceInfo().GetSourceFiles()] *)
  SourceInfo_SourceFiles : list Any;
  (** [GetAuthentication()] *)
  Auth : Authentication;
  (** [GetUsage().GetRules()] *)
  Usage_Rules : list UsageRule;
  (** [GetHttp().GetRules()] *)
  Http_Rules : list annotations.HttpRule;
  (** [GetControl().GetEnvironment()] *)
  Control_Environment : string;
}.
End conf.

(** ** Output: proxy configuration messages *)

(** [src/go/proto/api/envoy/http/common] *)
Module commonpb.
Record Pattern := {
  UriTemplate : string;
  HttpMethod : string;
}.
End commonpb.

(** [src/go/proto/api/envoy/http/service_control] *)
Module scpb.
Inductive APIKey :=
| APIKey_Query (name : string)
| APIKey_Header (name : string)
| APIKey_Cookie (name : string).

Record APIKeyRequirement := {
  ApiKeys : list APIKey;
  AllowWithoutApiKey : bool;
}.

Record Requirement := {
  Req_ServiceName : string;
  OperationName : string;
  ApiKey : option APIKeyRequirement;
}.

Record ServiceControlRule := {
  Pattern : commonpb.Pattern;
  Requires : Requirement;
}.

Record HttpUri := {
  Uri : string;
  Cluster : string;
  Timeout_Seconds : Z;
}.

Record Service := {
  Svc_ServiceName : string;
  TokenUri : HttpUri;
  Svc_ServiceControlUri : HttpUri;
}.

Record FilterConfig := {
  Services : list Service;
  ServiceName : string;
  ServiceControlUri : HttpUri;
  Rules : list ServiceControlRule;
}.
End scpb.

(** [envoy/api/v2/route] *)
Module route.
Inductive RouteMatch :=
| RouteMatch_Prefix (Prefix : string).

Inductive RouteAction :=
| RouteAction_Cluster (Cluster : string).

Record Route := {
  Match : RouteMatch;
  Action : RouteAction;
}.

Record VirtualHost := {
  Name : string;
  Domains : list string;
  Routes : list Route;
}.
End route.

(** [envoy/config/filter/http/jwt_authn/v2alpha] *)
Module ac.
Record JwtProvider := {
  Issuer : string;
  Audiences : list string;
  (** [LocalJwks] with an [InlineString] data source *)
  LocalJwks_InlineString : string;
}.

#[local] Set Warnings "-register-all".
Inductive JwtRequirement :=
| JwtRequirement_ProviderName (ProviderName : string)
| JwtRequirement_ProviderAndAudiences (ProviderName : string)
                                      (Audiences : list string)
| JwtRequirement_RequiresAny (Requirements : list JwtRequirement)
| JwtRequirement_RequiresAll (Requirements : list JwtRequirement).

Record RequirementRule := {
  Match : route.RouteMatch;
  Requires : JwtRequirement;
}.

Record JwtAuthentication := {
  Providers : gmap string JwtProvider;
  Rules : list RequirementRule;
}.
End ac.

(** [envoy/config/filter/http/transcoder/v2] *)
Module tc.
Record GrpcJsonTranscoder := {
  ProtoDescriptorBin : string;
  Services : list string;
}.
End tc.

(** The [types.Struct] that [util.MessageToStruct] makes of a filter
    configuration: the struct has a field for every field of the message, so
    the model keeps a message, tagged with its type: the message whose
    strings are those of the struct. *)
Inductive FilterStruct :=
| Struct_JwtAuthentication (c : ac.JwtAuthentication)
| Struct_FilterConfig (c : scpb.FilterConfig)
| Struct_GrpcJsonTranscoder (c : tc.GrpcJsonTranscoder)
| Struct_empty.

(** [envoy/api/v2/core] *)
Module core.
Record SocketAddress := {
  Address : string;
  PortValue : Z;
}.
End core.

(** [envoy/config/filter/network/http_connection_manager/v2] *)
Module hcm.
Inductive CodecType := AUTO | HTTP1 | HTTP2.

Record HttpFilter := {
  Name : string;
  Config : FilterStruct;
}.

Record RouteConfiguration := {
  RouteConfig_Name : string;
  VirtualHosts : list route.VirtualHost;
}.

Record HttpConnectionManager := {
  Codec : CodecType;
  StatPrefix : string;
  RouteConfig : RouteConfiguration;
  HttpFilters : list HttpFilter;
}.
End hcm.

(** [envoy/api/v2/listener] *)
Module listener.
Record Filter := {
  Name : string;
  (** [util.MessageToStruct(httpManager)] *)
  Config : hcm.HttpConnectionManager;
}.

Record FilterChain := { Filters : list Filter }.
End listener.

(** [envoy/api/v2] *)
Module v2.
Inductive Cluster_LbPolicy := Cluster_ROUND_ROBIN | Cluster_LEAST_REQUEST.

Record Cluster := {
  Name : string;
  LbPolicy : Cluster_LbPolicy;
  ConnectTimeout : Z;
  Hosts : list core.SocketAddress;
}.

Record Listener := {
  Address : core.SocketAddress;
  FilterChains : list listener.FilterChain;
}.
End v2.

(** [go-control-plane/pkg/cache] *)
Module cache.
Inductive Resource :=
| Resource_Cluster (c : v2.Cluster)
| Resource_Listener (l : v2.Listener).

(** [NewResources(version, items)] *)
Record Resources := {
  Version : string;
  Items : list Resource;
}.

Record Snapshot := {
  Endpoints : Resources;
  Clusters : Resources;
  Routes : Resources;
  Listeners : Resources;
}.

Definition NewSnapshot (version : string)
    (endpoints clusters routes listeners : list Resource) : Snapshot :=
  {| Endpoints := {| Version := version; Items := endpoints |};
     Clusters := {| Version := version; Items := clusters |};
     Routes := {| Version := version; Items := routes |};
     Listeners := {| Version := version; Items := listeners |} |}.

(** The snapshot cache, as the sequence of its [SetSnapshot] calls, the
    latest first. *)
Definition SnapshotCache := list (string * Snapshot).

Definition NewSnapshotCache : SnapshotCache := [].

Definition SetSnapshot (c : SnapshotCache) (node : string) (s : Snapshot)
  : SnapshotCache := (node, s) :: c.

Fixpoint GetSnapshot (c : SnapshotCache) (node : string) : option Snapshot :=
  match c with
  | [] => None
  | (n, s) :: c' => if String.eqb n node then Some s else GetSnapshot c' node
  end.
End cache.

(** [src/go/util]: the backend protocol enumeration. *)
Module ut.
Inductive BackendProtocol := GRPC | HTTP.
End ut.

(** ** Constants and flags *)

Definition statPrefix : string := "ingress_http".
Definition routeName : string := "local_route".
Definition virtualHostName : string := "backend".
Definition fetchConfigSufix : string :=
  "/v1/services/$serviceName/configs/$configId?view=FULL".
Definition tokenUri : string :=
  "http://169.254.169.254/computeMetadata/v1/instance/service-accounts/default/token".
Definition serviceControlUri : string :=
  "https://servicecontrol.googleapis.com/v1/services/".

(** Filter names of [go-control-plane/pkg/util]. *)
Module util.
Definition HTTPConnectionManager : string := "envoy.http_connection_manager".
Definition Router : string := "envoy.router".
Definition GRPCJSONTranscoder : string := "envoy.grpc_json_transcoder".
End util.

(** The command-line flags, read once at start-up. *)
Record Flags := {
  listenerAddress : string;
  clusterAddress : string;
  serviceManagementURL : string;
  node : string;
  listenerPort : Z;
  clusterPort : Z;
  clusterConnectTimeout : Z;
}.

Definition defaultFlags : Flags :=
  {| listenerAddress := "0.0.0.0";
     clusterAddress := "127.0.0.1";
     serviceManagementURL := "https://servicemanagement.googleapis.com";
     node := "api_proxy";
     listenerPort := 8080;
     clusterPort := 8082;
     clusterConnectTimeout := 20 * 1000000000 |}.

(** The conversion [uint32(n)] of a Go [int]. *)
Definition uint32 (n : Z) : Z := n mod 2 ^ 32.

Record ConfigManager := {
  serviceName : string;
  configID : string;
  cache : cache.SnapshotCache;
}.

(** ** The builders *)

Section Builders.

(** What the file takes from outside: the flags, the two filter names of
    [src/go/util], the three calls that leave the process, and what
    [util.MessageToStruct] does.  Each remote call is a fixed answer per
    request for the length of the start-up: the bytes or the document, an
    error, or a panic. *)
Context (flags : Flags).
Context (JwtAuthn ServiceControl : string).
Context (fetchJwk : string -> Outcome string).
Context (fetchAccessToken : Outcome string).
Context (callServiceManagement : string -> string -> Outcome conf.Service).

(** The string that the JSON round trip of [util.MessageToStruct] makes of a
    Go string: the string itself when it is valid UTF-8. *)
Context (jsonString : string -> string).

(** The error of [util.MessageToStruct(httpManager)], when it returns one. *)
Context (MessageToStruct_err : hcm.HttpConnectionManager -> option string).

Definition fetchConfigURL (serviceName configID : string) : string :=
  let path := serviceManagementURL flags +:+ fetchConfigSufix in
  let path := strings.Replace1 path "$serviceName" serviceName in
  strings.Replace1 path "$configId" configID.

(** *** [makeTranscoderFilter] *)

Fixpoint makeTranscoderFilter_loop (sourceFiles : list Any)
    (endpointApi : api.Api) : option hcm.HttpFilter :=
  match sourceFiles with
  | [] => None
  | sourceFile :: rest =>
      let configFile := UnmarshalAny sourceFile in
      match servicemanagement.FileType configFile with
      | servicemanagement.ConfigFile_FILE_DESCRIPTOR_SET_PROTO =>
          let configContent := servicemanagement.FileContents configFile in
          let transcodeConfig :=
            {| tc.ProtoDescriptorBin := configContent;
               tc.Services := [api.Name endpointApi] |} in
          Some {| hcm.Name := util.GRPCJSONTranscoder;
                  hcm.Config := Struct_GrpcJsonTranscoder transcodeConfig |}
      | _ => makeTranscoderFilter_loop rest endpointApi
      end
  end.

Definition makeTranscoderFilter (serviceConfig : conf.Service)
    (endpointApi : api.Api) : option hcm.HttpFilter :=
  makeTranscoderFilter_loop (conf.SourceInfo_SourceFiles serviceConfig)
                            endpointApi.

(** *** [makeJwtAuthnFilter] *)

Definition makeJwtProvider (provider : conf.AuthProvider) (jwk : string)
  : ac.JwtProvider :=
  {| ac.Issuer := conf.Issuer provider;
     ac.LocalJwks_InlineString := jwk;
     ac.Audiences :=
       if (String.length (conf.Audiences provider) =? 0)%nat then []
       else strings.Split (conf.Audiences provider) comma |}.

(** The first loop: one fetch per provider, [break] at the first error. *)
Fixpoint collectProviders (ps : list conf.AuthProvider)
    (providers : gmap string ac.JwtProvider)
  : Outcome (gmap string ac.JwtProvider) :=
  match ps with
  | [] => Ok providers
  | provider :: rest =>
      match fetchJwk (conf.JwksUri provider) with
      | Ok jwk =>
          collectProviders rest
            (<[conf.Id provider := makeJwtProvider provider jwk]> providers)
      | Err _ => Ok providers
      | Panic => Panic
      end
  end.

(** [util.MessageToStruct(jwtAuthentication)], its error dropped. *)
Definition renderProvider (jp : ac.JwtProvider) : ac.JwtProvider :=
  {| ac.Issuer := ac.Issuer jp;
     ac.Audiences := ac.Audiences jp;
     ac.LocalJwks_InlineString := jsonString (ac.LocalJwks_InlineString jp) |}.

Definition MessageToStruct_JwtAuthentication (c : ac.JwtAuthentication)
  : FilterStruct :=
  Struct_JwtAuthentication
    {| ac.Providers := renderProvider <$> ac.Providers c;
       ac.Rules := ac.Rules c |}.

Definition makeRequire (r : conf.AuthRequirement) : ac.JwtRequirement :=
  if String.eqb (conf.Req_Audiences r) ""
  then ac.JwtRequirement_ProviderName (conf.ProviderId r)
  else ac.JwtRequirement_ProviderAndAudiences (conf.ProviderId r)
         (strings.Split (conf.Req_Audiences r) comma).

(** One turn of the inner loop over the requirements of [rule].  Appending
    through [GetRequiresAny()] needs [requires] to be the [RequiresAny] it
    started as; it is replaced only when the rule has one requirement, and
    then nothing is appended. *)
Definition addRequire (rule : conf.AuthenticationRule)
    (requires : ac.JwtRequirement) (r : conf.AuthRequirement)
  : Outcome ac.JwtRequirement :=
  let require := makeRequire r in
  if (length (conf.Requirements rule) =? 1)%nat then Ok require
  else match requires with
       | ac.JwtRequirement_RequiresAny reqs =>
           Ok (ac.JwtRequirement_RequiresAny (reqs ++ [require]))
       | _ => Panic
       end.

Definition makeRequirementRule (endpointApi : api.Api)
    (rule : conf.AuthenticationRule) : Outcome ac.RequirementRule :=
  requires ← foldM (addRequire rule) (conf.Requirements rule)
                   (ac.JwtRequirement_RequiresAny []);
  let m := strings.Split (conf.Auth_Selector rule) dot in
  method ← last_elem m;
  Ok {| ac.Match :=
          route.RouteMatch_Prefix (Sprintf_path (api.Name endpointApi) method);
        ac.Requires := requires |}.

(** The second loop: [break] at the first rule without requirements. *)
Fixpoint makeRequirementRules (endpointApi : api.Api)
    (authRules : list conf.AuthenticationRule)
    (rules : list ac.RequirementRule) : Outcome (list ac.RequirementRule) :=
  match authRules with
  | [] => Ok rules
  | rule :: rest =>
      if (length (conf.Requirements rule) =? 0)%nat then Ok rules
      else
        ruleConfig ← makeRequirementRule endpointApi rule;
        makeRequirementRules endpointApi rest (rules ++ [ruleConfig])
  end.

Definition makeJwtAuthnFilter (serviceConfig : option conf.Service)
    (endpointApi : api.Api) : Outcome (option hcm.HttpFilter) :=
  match serviceConfig with
  | None => Ok None
  | Some serviceConfig =>
      let auth := conf.Auth serviceConfig in
      if (length (conf.Providers auth) =? 0)%nat then Ok None
      else
        providers ← collectProviders (conf.Providers auth) ∅;
        if (size providers =? 0)%nat then Ok None
        else
          rules ← makeRequirementRules endpointApi (conf.Rules auth) [];
          let jwtAuthentication :=
            {| ac.Providers := providers; ac.Rules := rules |} in
          Ok (Some {| hcm.Name := JwtAuthn;
                      hcm.Config :=
                        MessageToStruct_JwtAuthentication jwtAuthentication |})
  end.

(** *** [makeServiceControlFilter] *)

Definition seedRule (serviceConfig : conf.Service) (a : api.Api)
    (method : api.Method) : scpb.ServiceControlRule :=
  let grpcUri := Sprintf_path (api.Name a) (api.Method_Name method) in
  let selector := Sprintf_selector (api.Name a) (api.Method_Name method) in
  {| scpb.Requires :=
       {| scpb.Req_ServiceName := conf.Name serviceConfig;
          scpb.OperationName := selector;
          scpb.ApiKey := None |};
     scpb.Pattern :=
       {| commonpb.UriTemplate := grpcUri; commonpb.HttpMethod := "POST" |} |}.

(** The loop over the APIs and their methods. *)
Definition seedRules (serviceConfig : conf.Service)
  : gmap string scpb.ServiceControlRule :=
  fold_left
    (fun rulesMap a =>
       fold_left
         (fun rulesMap method =>
            let selector :=
              Sprintf_selector (api.Name a) (api.Method_Name method) in
            <[selector := seedRule serviceConfig a method]> rulesMap)
         (api.Methods a) rulesMap)
    (conf.Apis serviceConfig) ∅.

(** [scRule.Pattern = p] for [scRule := rulesMap[selector]]. *)
Definition setPattern (rulesMap : gmap string scpb.ServiceControlRule)
    (selector : string) (p : commonpb.Pattern)
  : Outcome (gmap string scpb.ServiceControlRule) :=
  match rulesMap !! selector with
  | None => Panic
  | Some scRule =>
      Ok (<[selector := {| scpb.Pattern := p;
                           scpb.Requires := scpb.Requires scRule |}]> rulesMap)
  end.

(** One turn of the loop over [http.rules]. *)
Definition applyHttpRule (rulesMap : gmap string scpb.ServiceControlRule)
    (httpRule : annotations.HttpRule)
  : Outcome (gmap string scpb.ServiceControlRule) :=
  let selector := annotations.Selector httpRule in
  match annotations.Pattern httpRule with
  | annotations.HttpRule_Get t =>
      setPattern rulesMap selector
        {| commonpb.UriTemplate := t; commonpb.HttpMethod := "GET" |}
  | annotations.HttpRule_Put t =>
      setPattern rulesMap selector
        {| commonpb.UriTemplate := t; commonpb.HttpMethod := "PUT" |}
  | annotations.HttpRule_Post t =>
      setPattern rulesMap selector
        {| commonpb.UriTemplate := t; commonpb.HttpMethod := "POST" |}
  | annotations.HttpRule_Delete t =>
      setPattern rulesMap selector
        {| commonpb.UriTemplate := t; commonpb.HttpMethod := "DELETE" |}
  | annotations.HttpRule_Patch t =>
      setPattern rulesMap selector
        {| commonpb.UriTemplate := t; commonpb.HttpMethod := "PATCH" |}
  | annotations.HttpRule_Custom _ _ => Ok rulesMap
  | annotations.HttpRule_unset => Ok rulesMap
  end.

Definition apiKeyRequirement (usageRule : conf.UsageRule)
  : scpb.APIKeyRequirement :=
  {| scpb.AllowWithoutApiKey := conf.AllowUnregisteredCalls usageRule;
     scpb.ApiKeys := [scpb.APIKey_Query "key"; scpb.APIKey_Header "x-api-key"] |}.

(** One turn of the loop over [usage.rules]. *)
Definition applyUsageRule (rulesMap : gmap string scpb.ServiceControlRule)
    (usageRule : conf.UsageRule)
  : Outcome (gmap string scpb.ServiceControlRule) :=
  let selector := conf.Usage_Selector usageRule in
  match rulesMap !! selector with
  | None => Panic
  | Some scRule =>
      let requires := scpb.Requires scRule in
      Ok (<[selector :=
             {| scpb.Pattern := scpb.Pattern scRule;
                scpb.Requires :=
                  {| scpb.Req_ServiceName := scpb.Req_ServiceName requires;
                     scpb.OperationName := scpb.OperationName requires;
                     scpb.ApiKey := Some (apiKeyRequirement usageRule) |} |}]>
            rulesMap)
  end.

(** [rulesMap] after the three loops. *)
Definition makeRulesMap (serviceConfig : conf.Service)
  : Outcome (gmap string scpb.ServiceControlRule) :=
  rulesMap ← foldM applyHttpRule (conf.Http_Rules serviceConfig)
                   (seedRules serviceConfig);
  foldM applyUsageRule (conf.Usage_Rules serviceConfig) rulesMap.

Definition serviceControlHttpUri : scpb.HttpUri :=
  {| scpb.Uri := serviceControlUri;
     scpb.Cluster := "service_control_cluster";
     scpb.Timeout_Seconds := 5 |}.

(** [for _, rule := range rulesMap] visits the entries in an order Go leaves
    open; the model lists them in the order of [map_to_list], and the
    theorems below speak of membership only. *)
Definition rulesOf (rulesMap : gmap string scpb.ServiceControlRule)
  : list scpb.ServiceControlRule :=
  (map_to_list rulesMap).*2.

Definition makeServiceControlFilter (serviceConfig : conf.Service)
  : Outcome (option hcm.HttpFilter) :=
  if String.eqb (conf.Name serviceConfig) ""
     || String.eqb (conf.Control_Environment serviceConfig) ""
  then Ok None
  else
    let service :=
      {| scpb.Svc_ServiceName := conf.Name serviceConfig;
         scpb.TokenUri :=
           {| scpb.Uri := tokenUri;
              scpb.Cluster := "gcp_metadata_cluster";
              scpb.Timeout_Seconds := 5 |};
         scpb.Svc_ServiceControlUri := serviceControlHttpUri |} in
    rulesMap ← makeRulesMap serviceConfig;
    let filterConfig :=
      {| scpb.Services := [service];
         scpb.ServiceName := conf.Name serviceConfig;
         scpb.ServiceControlUri := serviceControlHttpUri;
         scpb.Rules := rulesOf rulesMap |} in
    Ok (Some {| hcm.Name := ServiceControl;
                hcm.Config := Struct_FilterConfig filterConfig |}).

(** *** [makeListener] *)

Definition makeListener (serviceConfig : conf.Service) (endpointApi : api.Api)
  : Outcome (v2.Listener * hcm.HttpConnectionManager) :=
  let fileName := api.SourceContext_FileName endpointApi in
  backendProtocol ←
    (if strings.HasSuffix fileName ".proto" then Ok ut.GRPC
     else if strings.HasSuffix fileName ".yaml" then Ok ut.HTTP
     else Err "unknown backend protocol");
  let httpFilters := [] in
  jwtAuthnFilter ← makeJwtAuthnFilter (Some serviceConfig) endpointApi;
  let httpFilters :=
    match jwtAuthnFilter with
    | Some f => httpFilters ++ [f]
    | None => httpFilters
    end in
  serviceControlFilter ← makeServiceControlFilter serviceConfig;
  let httpFilters :=
    match serviceControlFilter with
    | Some f => httpFilters ++ [f]
    | None => httpFilters
    end in
  let httpFilters :=
    match backendProtocol with
    | ut.GRPC =>
        match makeTranscoderFilter serviceConfig endpointApi with
        | Some f => httpFilters ++ [f]
        | None => httpFilters
        end
    | ut.HTTP => httpFilters
    end in
  let routerFilter :=
    {| hcm.Name := util.Router; hcm.Config := Struct_empty |} in
  let httpFilters := httpFilters ++ [routerFilter] in
  let httpConMgr :=
    {| hcm.Codec := hcm.AUTO;
       hcm.StatPrefix := statPrefix;
       hcm.RouteConfig :=
         {| hcm.RouteConfig_Name := routeName;
            hcm.VirtualHosts :=
              [ {| route.Name := virtualHostName;
                   route.Domains := ["*"];
                   route.Routes :=
                     [ {| route.Match := route.RouteMatch_Prefix "/";
                          route.Action :=
                            route.RouteAction_Cluster (api.Name endpointApi) |} ]
                |} ] |};
       hcm.HttpFilters := httpFilters |} in
  Ok ({| v2.Address :=
           {| core.Address := listenerAddress flags;
              core.PortValue := uint32 (listenerPort flags) |};
         v2.FilterChains := [] |},
      httpConMgr).

(** *** [makeSnapshot] *)

Definition makeSnapshot (m : ConfigManager) (serviceConfig : conf.Service)
  : Outcome cache.Snapshot :=
  match conf.Apis serviceConfig with
  | [] => Err "service config must have one api at least"
  | endpointApi :: _ =>
      let endpoints : list cache.Resource := [] in
      let routes : list cache.Resource := [] in
      '(serverlistener, httpManager) ← makeListener serviceConfig endpointApi;
      httpFilterConfig ←
        match MessageToStruct_err httpManager with
        | Some err => Err err
        | None => Ok httpManager
        end;
      let serverlistener :=
        {| v2.Address := v2.Address serverlistener;
           v2.FilterChains :=
             [ {| listener.Filters :=
                    [ {| listener.Name := util.HTTPConnectionManager;
                         listener.Config := httpFilterConfig |} ] |} ] |} in
      let cluster :=
        {| v2.Name := api.Name endpointApi;
           v2.LbPolicy := v2.Cluster_ROUND_ROBIN;
           v2.ConnectTimeout := clusterConnectTimeout flags;
           v2.Hosts :=
             [ {| core.Address := clusterAddress flags;
                  core.PortValue := uint32 (clusterPort flags) |} ] |} in
      Ok (cache.NewSnapshot (configID m) endpoints
            [cache.Resource_Cluster cluster] routes
            [cache.Resource_Listener serverlistener])
  end.

(** *** [fetchConfig], [init] and [NewConfigManager] *)

Definition fetchConfig (m : ConfigManager) (configId : string)
  : Outcome conf.Service :=
  match fetchAccessToken with
  | Ok token =>
      callServiceManagement (fetchConfigURL (serviceName m) configId) token
  | Err _ => Err "fail to get access token"
  | Panic => Panic
  end.

(** [init] returns its error together with the manager it leaves behind. *)
Definition init (m : ConfigManager) : Outcome unit * ConfigManager :=
  match fetchConfig m (configID m) with
  | Err err => (Err ("fail to initialize config manager, " +:+ err), m)
  | Panic => (Panic, m)
  | Ok serviceConfig =>
      match makeSnapshot m serviceConfig with
      | Err err => (Err ("fail to make a snapshot, " +:+ err), m)
      | Panic => (Panic, m)
      | Ok snapshot =>
          (Ok tt,
           {| serviceName := serviceName m;
              configID := configID m;
              cache := cache.SetSnapshot (cache m) (node flags) snapshot |})
      end
  end.

Definition NewConfigManager (name configID : string) : Outcome ConfigManager :=
  let m := {| serviceName := name;
              configID := configID;
              cache := cache.NewSnapshotCache |} in
  match init m with
  | (Ok _, m') => Ok m'
  | (Err err, _) => Err err
  | (Panic, _) => Panic
  end.

(** ** Vocabulary of the statements *)

(** The methods of the document, in the order the seeding loop visits them. *)
Definition methodsOf (serviceConfig : conf.Service)
  : list (api.Api * api.Method) :=
  a ← conf.Apis serviceConfig; (fun method => (a, method)) <$> api.Methods a.

Definition selectorOf (am : api.Api * api.Method) : string :=
  Sprintf_selector (api.Name am.1) (api.Method_Name am.2).

(** The (verb, URI template) pair an HTTP binding declares, for the five
    variants the builder looks at. *)
Definition bindingOf (p : annotations.isHttpRule_Pattern)
  : option commonpb.Pattern :=
  match p with
  | annotations.HttpRule_Get t =>
      Some {| commonpb.UriTemplate := t; commonpb.HttpMethod := "GET" |}
  | annotations.HttpRule_Put t =>
      Some {| commonpb.UriTemplate := t; commonpb.HttpMethod := "PUT" |}
  | annotations.HttpRule_Post t =>
      Some {| commonpb.UriTemplate := t; commonpb.HttpMethod := "POST" |}
  | annotations.HttpRule_Delete t =>
      Some {| commonpb.UriTemplate := t; commonpb.HttpMethod := "DELETE" |}
  | annotations.HttpRule_Patch t =>
      Some {| commonpb.UriTemplate := t; commonpb.HttpMethod := "PATCH" |}
  | annotations.HttpRule_Custom _ _ => None
  | annotations.HttpRule_unset => None
  end.

(** A selector that names no method of the document. *)
Definition unmatched (serviceConfig : conf.Service) (selector : string)
  : Prop :=
  forall a method,
    a ∈ conf.Apis serviceConfig -> method ∈ api.Methods a ->
    Sprintf_selector (api.Name a) (api.Method_Name method) ≠ selector.

(** The rules of a filter whose operation name is [selector]. *)
Definition rulesFor (selector : string) (cfg : scpb.FilterConfig)
  : list scpb.ServiceControlRule :=
  filter (fun r => scpb.OperationName (scpb.Requires r) = selector)
         (scpb.Rules cfg).

(** The authentication rules before the first one without requirements. *)
Fixpoint rulesBeforeEmpty (authRules : list conf.AuthenticationRule)
  : list conf.AuthenticationRule :=
  match authRules with
  | [] => []
  | rule :: rest =>
      match conf.Requirements rule with
      | [] => []
      | _ :: _ => rule :: rulesBeforeEmpty rest
      end
  end.

(** What one authentication rule with requirements becomes. *)
Definition requiresOf (rule : conf.AuthenticationRule) : ac.JwtRequirement :=
  match conf.Requirements rule with
  | [r] => makeRequire r
  | rs => ac.JwtRequirement_RequiresAny (makeRequire <$> rs)
  end.

(** The HTTP filters a snapshot carries, through its listeners. *)
Definition listenerManagers (l : v2.Listener)
  : list hcm.HttpConnectionManager :=
  chain ← v2.FilterChains l; listener.Config <$> listener.Filters chain.

Definition snapshotManagers (s : cache.Snapshot)
  : list hcm.HttpConnectionManager :=
  r ← cache.Items (cache.Listeners s);
  match r with
  | cache.Resource_Listener l => listenerManagers l
  | cache.Resource_Cluster _ => []
  end.

(** The cluster names the routes of a connection manager point at. *)
Definition routedClusters (mgr : hcm.HttpConnectionManager) : list string :=
  vh ← hcm.VirtualHosts (hcm.RouteConfig mgr);
  (fun r => match route.Action r with
            | route.RouteAction_Cluster c => c
            end) <$> route.Routes vh.

Definition snapshotClusterNames (s : cache.Snapshot) : list string :=
  r ← cache.Items (cache.Clusters s);
  match r with
  | cache.Resource_Cluster c => [v2.Name c]
  | cache.Resource_Listener _ => []
  end.

(** ** Strings *)

Lemma Split_not_nil s sep : strings.Split s sep ≠ [].
Proof.
  destruct s as [|c s]; simpl; [done|].
  destruct (Ascii.eqb c sep); [done|].
  by destruct (strings.Split s sep).
Qed.

Lemma last_elem_Split s sep :
  exists seg, last (strings.Split s sep) = Some seg
              /\ last_elem (strings.Split s sep) = Ok seg.
Proof.
  unfold last_elem.
  destruct (last (strings.Split s sep)) as [seg|] eqn:E; [by exists seg|].
  apply last_None in E. by apply Split_not_nil in E.
Qed.

(** ** The loop combinator *)

Lemma foldM_app {A S : Type} (body : S -> A -> Outcome S) xs ys s :
  foldM body (xs ++ ys) s = (s' ← foldM body xs s; foldM body ys s').
Proof.
  revert s. induction xs as [|x xs IH]; intros s; simpl; [done|].
  destruct (body s x); simpl; auto.
Qed.

(** An invariant of the loop state that every successful turn keeps. *)
Lemma foldM_invariant {A S : Type} (body : S -> A -> Outcome S)
    (I : S -> Prop) xs s s' :
  (forall s x s', body s x = Ok s' -> I s -> I s') ->
  foldM body xs s = Ok s' -> I s -> I s'.
Proof.
  intros Hstep. revert s. induction xs as [|x xs IH]; intros s; simpl.
  - by intros [= ->].
  - destruct (body s x) as [s1| |] eqn:E; simpl; [|done..].
    intros Hrest Hs. eapply IH; [done|]. by eapply Hstep.
Qed.

(** The last element of a list with a given property. *)
Lemma last_occurrence {A : Type} (P : A -> Prop) `{!forall x, Decision (P x)}
    (l : list A) :
  Exists P l ->
  exists l1 x l2, l = l1 ++ x :: l2 /\ P x /\ Forall (fun y => ¬ P y) l2.
Proof.
  induction l as [|x l IH]; intros Hex; [by inversion Hex|].
  destruct (decide (Exists P l)) as [Hl|Hl].
  - destruct (IH Hl) as (l1 & y & l2 & -> & Hy & Hl2).
    by exists (x :: l1), y, l2.
  - exists [], x, l. split; [done|].
    apply not_Exists_Forall in Hl; [|done].
    inversion Hex; subst; [done|]. by apply Forall_Exists_neg in Hl.
Qed.

(** ** The JWT builder *)

Lemma addRequire_append rule acc r :
  length (conf.Requirements rule) ≠ 1 ->
  addRequire rule (ac.JwtRequirement_RequiresAny acc) r
  = Ok (ac.JwtRequirement_RequiresAny (acc ++ [makeRequire r])).
Proof.
  intros Hlen. unfold addRequire.
  by destruct (Nat.eqb_spec (length (conf.Requirements rule)) 1).
Qed.

Lemma addRequire_many rule rs acc :
  length (conf.Requirements rule) ≠ 1 ->
  foldM (addRequire rule) rs (ac.JwtRequirement_RequiresAny acc)
  = Ok (ac.JwtRequirement_RequiresAny (acc ++ (makeRequire <$> rs))).
Proof.
  intros Hlen. revert acc. induction rs as [|r rs IH]; intros acc.
  - simpl. by rewrite app_nil_r.
  - cbn [foldM]. rewrite addRequire_append by done.
    cbn [mbind Outcome_bind]. rewrite IH, <- app_assoc. done.
Qed.

Lemma addRequire_one rule r init :
  conf.Requirements rule = [r] ->
  foldM (addRequire rule) [r] init = Ok (makeRequire r).
Proof. intros E. simpl. unfold addRequire. by rewrite E. Qed.

Lemma makeRequirementRule_ok endpointApi rule :
  exists seg,
    last (strings.Split (conf.Auth_Selector rule) dot) = Some seg /\
    makeRequirementRule endpointApi rule
    = Ok {| ac.Match :=
              route.RouteMatch_Prefix (Sprintf_path (api.Name endpointApi) seg);
            ac.Requires := requiresOf rule |}.
Proof.
  destruct (last_elem_Split (conf.Auth_Selector rule) dot) as (seg & Hl & Hle).
  exists seg. split; [done|].
  unfold makeRequirementRule, requiresOf.
  destruct (conf.Requirements rule) as [|r [|r' rs]] eqn:E.
  - simpl. by rewrite Hle.
  - rewrite (addRequire_one rule r _ E). simpl. by rewrite Hle.
  - rewrite addRequire_many by (rewrite E; simpl; lia).
    simpl. by rewrite Hle.
Qed.

Lemma makeRequirementRules_ok endpointApi authRules rules :
  exists out,
    makeRequirementRules endpointApi authRules rules = Ok (rules ++ out) /\
    Forall2
      (fun rule ruleConfig =>
         exists seg,
           last (strings.Split (conf.Auth_Selector rule) dot) = Some seg /\
           ruleConfig
           = {| ac.Match :=
                  route.RouteMatch_Prefix
                    (Sprintf_path (api.Name endpointApi) seg);
                ac.Requires := requiresOf rule |})
      (rulesBeforeEmpty authRules) out.
Proof.
  revert rules. induction authRules as [|rule rest IH]; intros rules; simpl.
  - exists []. by rewrite app_nil_r.
  - destruct (conf.Requirements rule) as [|r rs] eqn:E; simpl.
    + exists []. by rewrite app_nil_r.
    + destruct (makeRequirementRule_ok endpointApi rule) as (seg & Hseg & ->).
      simpl.
      destruct (IH (rules ++
        [{| ac.Match :=
              route.RouteMatch_Prefix (Sprintf_path (api.Name endpointApi) seg);
            ac.Requires := requiresOf rule |}])) as (out & -> & Hout).
      eexists (_ :: out). split; [by rewrite <- app_assoc|].
      constructor; [|done]. by exists seg.
Qed.

(** What [requiresOf] is for one requirement and for several. *)
Lemma requiresOf_one rule r :
  conf.Requirements rule = [r] -> requiresOf rule = makeRequire r.
Proof. unfold requiresOf. by intros ->. Qed.

Lemma requiresOf_many rule :
  (2 <= length (conf.Requirements rule))%nat ->
  requiresOf rule
  = ac.JwtRequirement_RequiresAny (makeRequire <$> conf.Requirements rule).
Proof.
  unfold requiresOf.
  destruct (conf.Requirements rule) as [|r [|r' rs]]; simpl; [lia|lia|done].
Qed.

(** The second loop stops at a rule without requirements: the rules after
    it are not looked at. *)
Lemma makeRequirementRules_break endpointApi rule rest rules :
  conf.Requirements rule = [] ->
  makeRequirementRules endpointApi (rule :: rest) rules = Ok rules.
Proof. intros E. simpl. by rewrite E. Qed.

Lemma collectProviders_never_Err ps providers e :
  collectProviders ps providers ≠ Err e.
Proof.
  revert providers. induction ps as [|p ps IH]; intros providers; [done|].
  simpl. by destruct (fetchJwk (conf.JwksUri p)).
Qed.

Lemma collectProviders_app_ok ps1 ps providers :
  Forall (fun q => is_Ok (fetchJwk (conf.JwksUri q))) ps1 ->
  collectProviders (ps1 ++ ps) providers
  = (collected ← collectProviders ps1 providers; collectProviders ps collected).
Proof.
  intros Hok. revert providers.
  induction Hok as [|q ps1 [jwk Hq] _ IH]; intros providers; simpl; [done|].
  rewrite Hq. apply IH.
Qed.

Lemma collectProviders_fail p ps providers err :
  fetchJwk (conf.JwksUri p) = Err err ->
  collectProviders (p :: ps) providers = Ok providers.
Proof. intros Hp. simpl. by rewrite Hp. Qed.

Lemma collectProviders_all_ok ps1 providers :
  Forall (fun q => is_Ok (fetchJwk (conf.JwksUri q))) ps1 ->
  exists collected,
    collectProviders ps1 providers = Ok collected /\
    dom collected = dom providers ∪ list_to_set (conf.Id <$> ps1).
Proof.
  intros Hok. revert providers.
  induction Hok as [|q ps1 [jwk Hq] _ IH]; intros providers; simpl.
  - exists providers. by rewrite (right_id_L ∅ (∪)).
  - rewrite Hq.
    destruct (IH (<[conf.Id q := makeJwtProvider q jwk]> providers))
      as (collected & -> & Hdom).
    exists collected. split; [done|]. rewrite Hdom, dom_insert_L.
    by rewrite (comm_L (∪) {[conf.Id q]}), <- (assoc_L (∪)).
Qed.

Lemma collectProviders_ok_nonempty ps1 collected :
  Forall (fun q => is_Ok (fetchJwk (conf.JwksUri q))) ps1 ->
  collectProviders ps1 ∅ = Ok collected ->
  collected = ∅ <-> ps1 = [].
Proof.
  intros Hok Hc. split.
  - intros ->. destruct ps1 as [|q ps1]; [done|]. exfalso.
    destruct (collectProviders_all_ok (q :: ps1) ∅ Hok) as (m & Hm & Hdom).
    rewrite Hc in Hm. injection Hm as <-.
    assert (conf.Id q ∈ (dom (∅ : gmap string ac.JwtProvider) : gset string))
      as Hin.
    { rewrite Hdom. apply elem_of_union_r. simpl. apply elem_of_union_l.
      by apply elem_of_singleton. }
    rewrite dom_empty_L in Hin. by apply not_elem_of_empty in Hin.
  - intros ->. simpl in Hc. by injection Hc as <-.
Qed.

(** [makeJwtAuthnFilter] on a document: a panic when the collection of the
    key sets panics, no filter when no key set was collected, and otherwise
    the filter over the collected providers. *)
Lemma makeJwtAuthnFilter_cases serviceConfig endpointApi :
  let collection :=
    collectProviders (conf.Providers (conf.Auth serviceConfig)) ∅ in
  (collection = Panic /\
   makeJwtAuthnFilter (Some serviceConfig) endpointApi = Panic)
  \/
  (collection = Ok ∅ /\
   makeJwtAuthnFilter (Some serviceConfig) endpointApi = Ok None)
  \/
  (exists providers out,
     collection = Ok providers /\
     providers ≠ ∅ /\
     makeJwtAuthnFilter (Some serviceConfig) endpointApi
     = Ok (Some {| hcm.Name := JwtAuthn;
                   hcm.Config :=
                     MessageToStruct_JwtAuthentication
                       {| ac.Providers := providers; ac.Rules := out |} |}) /\
     Forall2
       (fun rule ruleConfig =>
          exists seg,
            last (strings.Split (conf.Auth_Selector rule) dot) = Some seg /\
            ruleConfig
            = {| ac.Match :=
                   route.RouteMatch_Prefix
                     (Sprintf_path (api.Name endpointApi) seg);
                 ac.Requires := requiresOf rule |})
       (rulesBeforeEmpty (conf.Rules (conf.Auth serviceConfig))) out).
Proof.
  intros collection. unfold makeJwtAuthnFilter. fold collection.
  destruct (conf.Providers (conf.Auth serviceConfig)) as [|p ps] eqn:Eps.
  { right; left. by subst collection. }
  cbn [length Nat.eqb].
  destruct collection as [providers|e|] eqn:Ec; cbn [mbind Outcome_bind].
  - destruct (Nat.eqb_spec (size providers) 0) as [Hsz|Hsz].
    { right; left. apply map_size_empty_iff in Hsz. by subst providers. }
    right; right.
    destruct (makeRequirementRules_ok endpointApi
                (conf.Rules (conf.Auth serviceConfig)) [])
      as (out & -> & Hout).
    exists providers, out. split; [done|]. split; [|by split].
    intros E. by rewrite E, map_size_empty in Hsz.
  - by apply collectProviders_never_Err in Ec.
  - by left.
Qed.

Lemma makeJwtAuthnFilter_Some serviceConfig endpointApi f :
  makeJwtAuthnFilter (Some serviceConfig) endpointApi = Ok (Some f) ->
  exists providers out,
    collectProviders (conf.Providers (conf.Auth serviceConfig)) ∅
    = Ok providers /\
    providers ≠ ∅ /\
    f = {| hcm.Name := JwtAuthn;
           hcm.Config :=
             MessageToStruct_JwtAuthentication
               {| ac.Providers := providers; ac.Rules := out |} |} /\
    Forall2
      (fun rule ruleConfig =>
         exists seg,
           last (strings.Split (conf.Auth_Selector rule) dot) = Some seg /\
           ruleConfig
           = {| ac.Match :=
                  route.RouteMatch_Prefix
                    (Sprintf_path (api.Name endpointApi) seg);
                ac.Requires := requiresOf rule |})
      (rulesBeforeEmpty (conf.Rules (conf.Auth serviceConfig))) out.
Proof.
  intros Hf.
  destruct (makeJwtAuthnFilter_cases serviceConfig endpointApi)
    as [[_ H]|[[_ H]|(providers & out & Hc & Hne & H & Hout)]];
    rewrite H in Hf; [discriminate Hf|discriminate Hf|].
  injection Hf as <-. by exists providers, out.
Qed.

Lemma makeJwtAuthnFilter_nil endpointApi :
  makeJwtAuthnFilter None endpointApi = Ok None.
Proof. done. Qed.

(** ** The service-control builder: seeding *)

Lemma seedRules_methodsOf serviceConfig :
  seedRules serviceConfig
  = fold_left
      (fun rulesMap am =>
         <[selectorOf am := seedRule serviceConfig am.1 am.2]> rulesMap)
      (methodsOf serviceConfig) ∅.
Proof.
  unfold seedRules, methodsOf. generalize (∅ : gmap string scpb.ServiceControlRule).
  induction (conf.Apis serviceConfig) as [|a apis IH]; intros m0; [done|].
  cbn [fold_left mbind list_bind]. rewrite fold_left_app, IH. f_equal.
  generalize m0. clear.
  induction (api.Methods a) as [|me mes IHm]; intros m0; [done|].
  cbn [fold_left fmap list_fmap]. by rewrite IHm.
Qed.

Lemma elem_of_methodsOf serviceConfig a method :
  (a, method) ∈ methodsOf serviceConfig
  <-> a ∈ conf.Apis serviceConfig /\ method ∈ api.Methods a.
Proof.
  unfold methodsOf. rewrite list_elem_of_bind. split.
  - intros (a' & Hin & Ha'). apply list_elem_of_fmap in Hin as (me & [= -> ->] & Hme).
    done.
  - intros [Ha Hme]. exists a. split; [|done].
    apply list_elem_of_fmap. by exists method.
Qed.

Section SeedFold.
Context (serviceConfig : conf.Service).

Let step (rulesMap : gmap string scpb.ServiceControlRule)
    (am : api.Api * api.Method) :=
  <[selectorOf am := seedRule serviceConfig am.1 am.2]> rulesMap.

Lemma seed_fold_notin l m0 k :
  (forall am, am ∈ l -> selectorOf am ≠ k) ->
  fold_left step l m0 !! k = m0 !! k.
Proof.
  revert m0. induction l as [|am l IH]; intros m0 Hl; [done|].
  cbn [fold_left]. rewrite IH.
  - unfold step. apply lookup_insert_ne. apply Hl. by left.
  - intros am' Hin. apply Hl. by right.
Qed.

Lemma seed_fold_last l1 am l2 m0 :
  (forall am', am' ∈ l2 -> selectorOf am' ≠ selectorOf am) ->
  fold_left step (l1 ++ am :: l2) m0 !! selectorOf am
  = Some (seedRule serviceConfig am.1 am.2).
Proof.
  intros Hl2. rewrite fold_left_app. cbn [fold_left].
  rewrite seed_fold_notin by done. unfold step. apply lookup_insert_eq.
Qed.

Lemma seed_fold_inv l m0 k r :
  fold_left step l m0 !! k = Some r ->
  m0 !! k = Some r \/
  exists am, am ∈ l /\ selectorOf am = k
             /\ r = seedRule serviceConfig am.1 am.2.
Proof.
  revert m0. induction l as [|am l IH]; intros m0 Hk; [by left|].
  cbn [fold_left] in Hk. apply IH in Hk as [Hk|(am' & Hin & Hsel & Hr)].
  - unfold step in Hk. apply lookup_insert_Some in Hk as [[Hsel Hr]|[_ Hk]].
    + right. exists am. split; [by left|done].
    + by left.
  - right. exists am'. split; [by right|done].
Qed.

Lemma seed_fold_in l m0 am :
  am ∈ l -> is_Some (fold_left step l m0 !! selectorOf am).
Proof.
  intros Hin.
  destruct (last_occurrence (fun y => selectorOf y = selectorOf am) l)
    as (l1 & am' & l2 & -> & Hsel & Hl2).
  { apply Exists_exists. by exists am. }
  rewrite <- Hsel. rewrite seed_fold_last; [by eexists|].
  intros x Hx. rewrite Hsel. by eapply Forall_forall in Hl2.
Qed.
End SeedFold.

(** Every entry of the seeded map is the seed of a method with that
    selector, and every method has an entry. *)
Lemma seedRules_lookup_inv serviceConfig k r :
  seedRules serviceConfig !! k = Some r ->
  exists am, am ∈ methodsOf serviceConfig /\ selectorOf am = k
             /\ r = seedRule serviceConfig am.1 am.2.
Proof.
  rewrite seedRules_methodsOf. intros H.
  apply seed_fold_inv in H as [H|H]; [|done]. by rewrite lookup_empty in H.
Qed.

Lemma seedRules_lookup_in serviceConfig am :
  am ∈ methodsOf serviceConfig ->
  is_Some (seedRules serviceConfig !! selectorOf am).
Proof. rewrite seedRules_methodsOf. apply seed_fold_in. Qed.

Lemma seedRules_lookup_None serviceConfig k :
  (forall am, am ∈ methodsOf serviceConfig -> selectorOf am ≠ k) ->
  seedRules serviceConfig !! k = None.
Proof.
  intros H. rewrite seedRules_methodsOf, seed_fold_notin by done.
  apply lookup_empty.
Qed.

(** ** Loops that update the rule a selector points at

    Both the [http.rules] loop and the [usage.rules] loop have this shape:
    an entry either leaves the map alone or looks its selector up and
    writes through the pointer it finds. *)
Section KeyedLoop.
Context {X : Type}.
Context (target : X -> option string).
Context (upd : X -> scpb.ServiceControlRule -> scpb.ServiceControlRule).

Definition keyedStep (rulesMap : gmap string scpb.ServiceControlRule)
    (x : X) : Outcome (gmap string scpb.ServiceControlRule) :=
  match target x with
  | None => Ok rulesMap
  | Some k =>
      match rulesMap !! k with
      | None => Panic
      | Some r => Ok (<[k := upd x r]> rulesMap)
      end
  end.

Lemma keyedStep_Ok m x m' :
  keyedStep m x = Ok m' ->
  (target x = None /\ m' = m) \/
  (exists k r, target x = Some k /\ m !! k = Some r
               /\ m' = <[k := upd x r]> m).
Proof.
  unfold keyedStep. destruct (target x) as [k|]; [|intros [= <-]; by left].
  destruct (m !! k) as [r|] eqn:E; [|done].
  intros [= <-]. right. by exists k, r.
Qed.

Lemma keyedStep_dom m x m' k :
  keyedStep m x = Ok m' -> (m' !! k = None <-> m !! k = None).
Proof.
  intros [[_ ->]|(k' & r & _ & Hk' & ->)]%keyedStep_Ok; [done|].
  destruct (decide (k' = k)) as [->|Hne].
  - rewrite lookup_insert_eq, Hk'. done.
  - by rewrite lookup_insert_ne.
Qed.

Lemma keyed_dom xs m m' k :
  foldM keyedStep xs m = Ok m' -> (m' !! k = None <-> m !! k = None).
Proof.
  intros H.
  apply (foldM_invariant keyedStep
           (fun s => s !! k = None <-> m !! k = None) xs m m'); [|done|done].
  intros s x s' Hstep Hs. by rewrite (keyedStep_dom _ _ _ _ Hstep).
Qed.

Lemma keyed_never_Err xs m e : foldM keyedStep xs m ≠ Err e.
Proof.
  revert m. induction xs as [|x xs IH]; intros m; [done|].
  cbn [foldM]. destruct (keyedStep m x) as [m1|e1|] eqn:E1; simpl; [apply IH| |done].
  unfold keyedStep in E1. destruct (target x); [|done]. by destruct (m !! s).
Qed.

Lemma keyed_panic xs m x k :
  x ∈ xs -> target x = Some k -> m !! k = None ->
  foldM keyedStep xs m = Panic.
Proof.
  intros Hin Hx. revert m. induction xs as [|y xs IH]; intros m Hk.
  { by inversion Hin. }
  cbn [foldM]. destruct (keyedStep m y) as [m1|e1|] eqn:E1; simpl; [| |done].
  - apply elem_of_cons in Hin as [<-|Hin].
    + unfold keyedStep in E1. by rewrite Hx, Hk in E1.
    + apply IH; [done|]. by rewrite (keyedStep_dom _ _ _ _ E1).
  - exfalso. apply (keyed_never_Err [y] m e1). cbn [foldM].
    by rewrite E1.
Qed.

Lemma keyed_ok xs m :
  (forall x k, x ∈ xs -> target x = Some k -> is_Some (m !! k)) ->
  is_Ok (foldM keyedStep xs m).
Proof.
  revert m. induction xs as [|x xs IH]; intros m Hall; [by exists m|].
  cbn [foldM].
  assert (exists m1, keyedStep m x = Ok m1) as [m1 E1].
  { unfold keyedStep. destruct (target x) as [k|] eqn:Ex; [|by eexists].
    destruct (Hall x k) as [r ->]; [by left|done|by eexists]. }
  rewrite E1. simpl. apply IH. intros y k Hy Hty.
  destruct (m1 !! k) eqn:E; [by eexists|].
  apply (keyedStep_dom _ _ _ _ E1) in E.
  destruct (Hall y k) as [r Hr]; [by right|done|]. by rewrite Hr in E.
Qed.

Lemma keyed_untouched xs m m' k :
  foldM keyedStep xs m = Ok m' ->
  (forall x, x ∈ xs -> target x ≠ Some k) ->
  m' !! k = m !! k.
Proof.
  revert m. induction xs as [|x xs IH]; intros m; cbn [foldM].
  { by intros [= ->]. }
  destruct (keyedStep m x) as [m1| |] eqn:E1; simpl; [|done..].
  intros Hrest Hall. rewrite (IH m1 Hrest).
  - apply keyedStep_Ok in E1 as [[_ ->]|(k' & r & Hx & _ & ->)]; [done|].
    apply lookup_insert_ne. intros ->. by apply (Hall x); [left|].
  - intros y Hy. apply Hall. by right.
Qed.

(** A field no update changes is the same before and after the loop. *)
Lemma keyed_preserve {B : Type} (f : scpb.ServiceControlRule -> B) xs m m' k :
  (forall x r, f (upd x r) = f r) ->
  foldM keyedStep xs m = Ok m' ->
  f <$> m' !! k = f <$> m !! k.
Proof.
  intros Hf H.
  apply (foldM_invariant keyedStep
           (fun s => f <$> s !! k = f <$> m !! k) xs m m'); [|done|done].
  intros s x s' [[_ ->]|(k' & r & _ & Hk' & ->)]%keyedStep_Ok Hs; [done|].
  destruct (decide (k' = k)) as [->|Hne].
  - rewrite lookup_insert_eq. rewrite <- Hs, Hk'. simpl. by rewrite Hf.
  - by rewrite lookup_insert_ne.
Qed.

(** The last entry that targets a selector decides its rule. *)
Lemma keyed_last xs1 x xs2 m m' k :
  foldM keyedStep (xs1 ++ x :: xs2) m = Ok m' ->
  target x = Some k ->
  (forall y, y ∈ xs2 -> target y ≠ Some k) ->
  exists r, m' !! k = Some (upd x r).
Proof.
  rewrite foldM_app. destruct (foldM keyedStep xs1 m) as [m1| |]; [|done..].
  cbn [mbind Outcome_bind foldM].
  destruct (keyedStep m1 x) as [m2| |] eqn:E2; [|done..].
  cbn [mbind Outcome_bind]. intros Hrest Hx Hxs2.
  rewrite (keyed_untouched _ _ _ _ Hrest Hxs2).
  apply keyedStep_Ok in E2 as [[Hx' _]|(k' & r & Hx' & _ & ->)].
  - by rewrite Hx in Hx'.
  - rewrite Hx in Hx'. injection Hx' as <-. exists r. apply lookup_insert_eq.
Qed.
End KeyedLoop.

(** ** The two loops of the service-control builder as keyed loops *)

Definition httpTarget (h : annotations.HttpRule) : option string :=
  match bindingOf (annotations.Pattern h) with
  | Some _ => Some (annotations.Selector h)
  | None => None
  end.

Definition httpUpd (h : annotations.HttpRule) (r : scpb.ServiceControlRule)
  : scpb.ServiceControlRule :=
  match bindingOf (annotations.Pattern h) with
  | Some p => {| scpb.Pattern := p; scpb.Requires := scpb.Requires r |}
  | None => r
  end.

Definition usageTarget (u : conf.UsageRule) : option string :=
  Some (conf.Usage_Selector u).

Definition usageUpd (u : conf.UsageRule) (r : scpb.ServiceControlRule)
  : scpb.ServiceControlRule :=
  {| scpb.Pattern := scpb.Pattern r;
     scpb.Requires :=
       {| scpb.Req_ServiceName := scpb.Req_ServiceName (scpb.Requires r);
          scpb.OperationName := scpb.OperationName (scpb.Requires r);
          scpb.ApiKey := Some (apiKeyRequirement u) |} |}.

Lemma applyHttpRule_keyed m h :
  applyHttpRule m h = keyedStep httpTarget httpUpd m h.
Proof.
  unfold applyHttpRule, keyedStep, httpTarget, httpUpd, setPattern.
  by destruct (annotations.Pattern h).
Qed.

Lemma applyUsageRule_keyed m u :
  applyUsageRule m u = keyedStep usageTarget usageUpd m u.
Proof. done. Qed.

Lemma foldM_ext {A S : Type} (f g : S -> A -> Outcome S) xs s :
  (forall s x, f s x = g s x) -> foldM f xs s = foldM g xs s.
Proof.
  intros Hfg. revert s. induction xs as [|x xs IH]; intros s; [done|].
  cbn [foldM]. rewrite Hfg. destruct (g s x); simpl; auto.
Qed.

Lemma http_loop_keyed hs m :
  foldM applyHttpRule hs m = foldM (keyedStep httpTarget httpUpd) hs m.
Proof. apply foldM_ext, applyHttpRule_keyed. Qed.

Lemma usage_loop_keyed us m :
  foldM applyUsageRule us m = foldM (keyedStep usageTarget usageUpd) us m.
Proof. apply foldM_ext, applyUsageRule_keyed. Qed.

Lemma httpUpd_Requires h r : scpb.Requires (httpUpd h r) = scpb.Requires r.
Proof. unfold httpUpd. by destruct (bindingOf _). Qed.

Lemma usageUpd_Pattern u r : scpb.Pattern (usageUpd u r) = scpb.Pattern r.
Proof. done. Qed.

Lemma usageUpd_OperationName u r :
  scpb.OperationName (scpb.Requires (usageUpd u r))
  = scpb.OperationName (scpb.Requires r).
Proof. done. Qed.

Lemma usageUpd_ServiceName u r :
  scpb.Req_ServiceName (scpb.Requires (usageUpd u r))
  = scpb.Req_ServiceName (scpb.Requires r).
Proof. done. Qed.

(** *** What [makeRulesMap] keeps and what it changes *)

Lemma makeRulesMap_Ok serviceConfig rulesMap :
  makeRulesMap serviceConfig = Ok rulesMap ->
  exists afterHttp,
    foldM (keyedStep httpTarget httpUpd) (conf.Http_Rules serviceConfig)
          (seedRules serviceConfig) = Ok afterHttp /\
    foldM (keyedStep usageTarget usageUpd) (conf.Usage_Rules serviceConfig)
          afterHttp = Ok rulesMap.
Proof.
  unfold makeRulesMap. rewrite http_loop_keyed.
  destruct (foldM _ (conf.Http_Rules serviceConfig) _) as [m1| |]; [|done..].
  cbn [mbind Outcome_bind]. rewrite usage_loop_keyed. intros H. by exists m1.
Qed.

Lemma makeRulesMap_never_Err serviceConfig e :
  makeRulesMap serviceConfig ≠ Err e.
Proof.
  unfold makeRulesMap. rewrite http_loop_keyed.
  destruct (foldM _ (conf.Http_Rules serviceConfig) _) as [m1|e1|] eqn:E1.
  - cbn [mbind Outcome_bind]. rewrite usage_loop_keyed. apply keyed_never_Err.
  - by apply keyed_never_Err in E1.
  - done.
Qed.

(** The selectors of the final map are those of the seeded map. *)
Lemma makeRulesMap_dom serviceConfig rulesMap k :
  makeRulesMap serviceConfig = Ok rulesMap ->
  rulesMap !! k = None <-> seedRules serviceConfig !! k = None.
Proof.
  intros (m1 & H1 & H2)%makeRulesMap_Ok.
  rewrite (keyed_dom _ _ _ _ _ k H2). apply (keyed_dom _ _ _ _ _ k H1).
Qed.

(** Operation name and service name of every final rule are those of the
    seed: the operation name is the key, the service name the document's. *)
Lemma makeRulesMap_requires serviceConfig rulesMap k r :
  makeRulesMap serviceConfig = Ok rulesMap ->
  rulesMap !! k = Some r ->
  scpb.OperationName (scpb.Requires r) = k /\
  scpb.Req_ServiceName (scpb.Requires r) = conf.Name serviceConfig.
Proof.
  intros (m1 & H1 & H2)%makeRulesMap_Ok Hr.
  pose proof (keyed_preserve usageTarget usageUpd
                (fun r => scpb.OperationName (scpb.Requires r))
                _ _ _ k usageUpd_OperationName H2) as Hop.
  pose proof (keyed_preserve usageTarget usageUpd
                (fun r => scpb.Req_ServiceName (scpb.Requires r))
                _ _ _ k usageUpd_ServiceName H2) as Hsn.
  pose proof (keyed_preserve httpTarget httpUpd scpb.Requires
                _ _ _ k httpUpd_Requires H1) as Hreq.
  rewrite Hr in Hop, Hsn. simpl in Hop, Hsn.
  destruct (m1 !! k) as [r1|] eqn:E1; [|done].
  destruct (seedRules serviceConfig !! k) as [r0|] eqn:E0; [|done].
  simpl in *. injection Hop as Hop. injection Hsn as Hsn. injection Hreq as Hreq.
  rewrite Hop, Hsn, Hreq.
  apply seedRules_lookup_inv in E0 as (am & _ & Hsel & ->). by simpl.
Qed.

(** *** The emitted rule list *)

Lemma elem_of_rulesOf (rulesMap : gmap string scpb.ServiceControlRule) r :
  r ∈ rulesOf rulesMap <-> exists k, rulesMap !! k = Some r.
Proof.
  unfold rulesOf. rewrite list_elem_of_fmap. split.
  - intros ([k r'] & -> & Hin). exists k. by apply elem_of_map_to_list.
  - intros [k Hk]. exists (k, r). split; [done|]. by apply elem_of_map_to_list.
Qed.

(** When every rule carries its key as its operation name, the list has
    exactly one rule for each key of the map. *)
Lemma rulesOf_filter_singleton (rulesMap : gmap string scpb.ServiceControlRule)
    selector r :
  (forall k r', rulesMap !! k = Some r' ->
                scpb.OperationName (scpb.Requires r') = k) ->
  rulesMap !! selector = Some r ->
  filter (fun r' => scpb.OperationName (scpb.Requires r') = selector)
         (rulesOf rulesMap) = [r].
Proof.
  intros Hkey Hr. apply Permutation_singleton_r.
  unfold rulesOf. rewrite <- (map_to_list_delete rulesMap selector r Hr).
  cbn [fmap list_fmap snd]. rewrite filter_cons_True by by apply Hkey.
  replace (filter _ _) with (@nil scpb.ServiceControlRule); [done|].
  symmetry.
  destruct (filter _ (map_to_list (delete selector rulesMap)).*2)
    as [|r' rest] eqn:E; [done|].
  assert (r' ∈ r' :: rest) as Hin by by left.
  rewrite <- E in Hin. apply list_elem_of_filter in Hin as [Hop Hin].
  apply elem_of_rulesOf in Hin as [k Hk].
  apply lookup_delete_Some in Hk as [Hne Hk]. apply Hkey in Hk. congruence.
Qed.

(** *** The filter as a whole *)

Lemma makeServiceControlFilter_disabled serviceConfig :
  conf.Name serviceConfig = "" \/ conf.Control_Environment serviceConfig = "" ->
  makeServiceControlFilter serviceConfig = Ok None.
Proof.
  unfold makeServiceControlFilter. intros [-> | ->]; [done|].
  by rewrite orb_true_r.
Qed.

Lemma makeServiceControlFilter_enabled serviceConfig :
  conf.Name serviceConfig ≠ "" ->
  conf.Control_Environment serviceConfig ≠ "" ->
  makeServiceControlFilter serviceConfig
  = (rulesMap ← makeRulesMap serviceConfig;
     Ok (Some
           {| hcm.Name := ServiceControl;
              hcm.Config :=
                Struct_FilterConfig
                  {| scpb.Services :=
                       [ {| scpb.Svc_ServiceName := conf.Name serviceConfig;
                            scpb.TokenUri :=
                              {| scpb.Uri := tokenUri;
                                 scpb.Cluster := "gcp_metadata_cluster";
                                 scpb.Timeout_Seconds := 5 |};
                            scpb.Svc_ServiceControlUri :=
                              serviceControlHttpUri |} ];
                     scpb.ServiceName := conf.Name serviceConfig;
                     scpb.ServiceControlUri := serviceControlHttpUri;
                     scpb.Rules := rulesOf rulesMap |} |})).
Proof.
  intros Hn He. unfold makeServiceControlFilter.
  apply String.eqb_neq in Hn, He. by rewrite Hn, He.
Qed.

Lemma makeServiceControlFilter_Some serviceConfig f :
  makeServiceControlFilter serviceConfig = Ok (Some f) ->
  conf.Name serviceConfig ≠ "" /\
  conf.Control_Environment serviceConfig ≠ "" /\
  hcm.Name f = ServiceControl /\
  exists rulesMap cfg,
    makeRulesMap serviceConfig = Ok rulesMap /\
    hcm.Config f = Struct_FilterConfig cfg /\
    scpb.ServiceName cfg = conf.Name serviceConfig /\
    scpb.Rules cfg = rulesOf rulesMap.
Proof.
  intros H.
  destruct (decide (conf.Name serviceConfig = "")) as [Hn|Hn].
  { by rewrite makeServiceControlFilter_disabled in H by by left. }
  destruct (decide (conf.Control_Environment serviceConfig = "")) as [He|He].
  { by rewrite makeServiceControlFilter_disabled in H by by right. }
  rewrite makeServiceControlFilter_enabled in H by done.
  destruct (makeRulesMap serviceConfig) as [rulesMap| |]; [|done..].
  cbn [mbind Outcome_bind] in H. injection H as <-.
  do 3 (split; [done|]). by eexists rulesMap, _.
Qed.

Lemma makeServiceControlFilter_never_Err serviceConfig e :
  makeServiceControlFilter serviceConfig ≠ Err e.
Proof.
  destruct (decide (conf.Name serviceConfig = "")) as [Hn|Hn].
  { by rewrite makeServiceControlFilter_disabled by by left. }
  destruct (decide (conf.Control_Environment serviceConfig = "")) as [He|He].
  { by rewrite makeServiceControlFilter_disabled by by right. }
  rewrite makeServiceControlFilter_enabled by done.
  destruct (makeRulesMap serviceConfig) as [rulesMap|e'|] eqn:E; [done| |done].
  by apply makeRulesMap_never_Err in E.
Qed.

Lemma unmatched_seedRules serviceConfig selector :
  unmatched serviceConfig selector ->
  seedRules serviceConfig !! selector = None.
Proof.
  intros Hun. apply seedRules_lookup_None.
  intros [a method] [Ha Hm]%elem_of_methodsOf. by apply Hun.
Qed.

Lemma seedRules_unmatched serviceConfig selector :
  seedRules serviceConfig !! selector = None ->
  unmatched serviceConfig selector.
Proof.
  intros Hnone a method Ha Hm Hsel.
  destruct (seedRules_lookup_in serviceConfig (a, method)) as [r Hr].
  { by apply elem_of_methodsOf. }
  unfold selectorOf in Hr. simpl in Hr. by rewrite Hsel, Hnone in Hr.
Qed.

(** The rule map is built exactly when every selector that is looked up
    names a method. *)
Lemma makeRulesMap_is_Ok serviceConfig :
  (forall h, h ∈ conf.Http_Rules serviceConfig ->
             bindingOf (annotations.Pattern h) ≠ None ->
             ¬ unmatched serviceConfig (annotations.Selector h)) ->
  (forall u, u ∈ conf.Usage_Rules serviceConfig ->
             ¬ unmatched serviceConfig (conf.Usage_Selector u)) ->
  is_Ok (makeRulesMap serviceConfig).
Proof.
  intros Hh Hu. unfold makeRulesMap. rewrite http_loop_keyed.
  destruct (keyed_ok httpTarget httpUpd (conf.Http_Rules serviceConfig)
              (seedRules serviceConfig)) as [m1 H1].
  { intros h k Hin Ht. unfold httpTarget in Ht.
    destruct (bindingOf (annotations.Pattern h)) eqn:Eb; [|done].
    injection Ht as <-.
    destruct (seedRules serviceConfig !! annotations.Selector h) eqn:E;
      [by eexists|].
    apply seedRules_unmatched in E. destruct (Hh h); [done|by rewrite Eb|done]. }
  rewrite H1. cbn [mbind Outcome_bind]. rewrite usage_loop_keyed.
  apply keyed_ok. intros u k Hin [= <-].
  destruct (m1 !! conf.Usage_Selector u) eqn:E; [by eexists|].
  apply (keyed_dom _ _ _ _ _ _ H1) in E. apply seedRules_unmatched in E.
  by destruct (Hu u).
Qed.

Lemma makeRulesMap_Panic_http serviceConfig h :
  h ∈ conf.Http_Rules serviceConfig ->
  bindingOf (annotations.Pattern h) ≠ None ->
  unmatched serviceConfig (annotations.Selector h) ->
  makeRulesMap serviceConfig = Panic.
Proof.
  intros Hin Hb Hun. unfold makeRulesMap. rewrite http_loop_keyed.
  rewrite (keyed_panic httpTarget httpUpd _ _ h (annotations.Selector h));
    [done|done| |by apply unmatched_seedRules].
  unfold httpTarget. by destruct (bindingOf (annotations.Pattern h)).
Qed.

Lemma makeRulesMap_Panic_usage serviceConfig u :
  u ∈ conf.Usage_Rules serviceConfig ->
  unmatched serviceConfig (conf.Usage_Selector u) ->
  makeRulesMap serviceConfig = Panic.
Proof.
  intros Hin Hun. unfold makeRulesMap. rewrite http_loop_keyed.
  destruct (foldM _ (conf.Http_Rules serviceConfig) _) as [m1|e1|] eqn:E1.
  - cbn [mbind Outcome_bind]. rewrite usage_loop_keyed.
    apply (keyed_panic usageTarget usageUpd _ _ u (conf.Usage_Selector u));
      [done|done|].
    apply (keyed_dom _ _ _ _ _ _ E1). by apply unmatched_seedRules.
  - by apply keyed_never_Err in E1.
  - done.
Qed.

(** The filter is emitted whenever the service name and the control
    environment are there and every selector that is looked up names a
    method. *)
Lemma makeServiceControlFilter_emitted serviceConfig :
  conf.Name serviceConfig ≠ "" ->
  conf.Control_Environment serviceConfig ≠ "" ->
  (forall h, h ∈ conf.Http_Rules serviceConfig ->
             bindingOf (annotations.Pattern h) ≠ None ->
             ¬ unmatched serviceConfig (annotations.Selector h)) ->
  (forall u, u ∈ conf.Usage_Rules serviceConfig ->
             ¬ unmatched serviceConfig (conf.Usage_Selector u)) ->
  exists f, makeServiceControlFilter serviceConfig = Ok (Some f).
Proof.
  intros Hn He Hh Hu. rewrite makeServiceControlFilter_enabled by done.
  destruct (makeRulesMap_is_Ok serviceConfig Hh Hu) as [rulesMap ->].
  by eexists.
Qed.

(** ** Service-control rules: the claims *)

(** The rule the final map holds for a selector is the one rule of the
    emitted list with that operation name. *)
Lemma emitted_rule serviceConfig rulesMap cfg selector r :
  makeRulesMap serviceConfig = Ok rulesMap ->
  scpb.Rules cfg = rulesOf rulesMap ->
  rulesMap !! selector = Some r ->
  rulesFor selector cfg = [r].
Proof.
  intros Hm Hrules Hr. unfold rulesFor. rewrite Hrules.
  apply rulesOf_filter_singleton; [|done].
  intros k r' Hk. by destruct (makeRulesMap_requires _ _ _ _ Hm Hk).
Qed.

Lemma final_rule_of_method serviceConfig rulesMap a method :
  makeRulesMap serviceConfig = Ok rulesMap ->
  a ∈ conf.Apis serviceConfig -> method ∈ api.Methods a ->
  is_Some (rulesMap !!
             Sprintf_selector (api.Name a) (api.Method_Name method)).
Proof.
  intros Hm Ha Hme.
  destruct (rulesMap !! _) as [r|] eqn:E; [by eexists|].
  apply (makeRulesMap_dom _ _ _ Hm) in E.
  destruct (seedRules_lookup_in serviceConfig (a, method)) as [r Hr].
  { by apply elem_of_methodsOf. }
  unfold selectorOf in Hr. simpl in Hr. by rewrite E in Hr.
Qed.

(** C1 (amended).  In the emitted service-control filter every API method
    has exactly one rule whose operation name is [<api_name>.<method_name>];
    that rule carries the document's service name; and when no [http.rules]
    entry names the selector, and every method of the document with this
    selector has this API name and this method name, its pattern is
    [POST /<api_name>/<method_name>]. *)
Theorem C1_one_rule_per_method serviceConfig f a method :
  makeServiceControlFilter serviceConfig = Ok (Some f) ->
  a ∈ conf.Apis serviceConfig ->
  method ∈ api.Methods a ->
  let selector := Sprintf_selector (api.Name a) (api.Method_Name method) in
  exists cfg r,
    hcm.Config f = Struct_FilterConfig cfg /\
    rulesFor selector cfg = [r] /\
    scpb.OperationName (scpb.Requires r) = selector /\
    scpb.Req_ServiceName (scpb.Requires r) = conf.Name serviceConfig /\
    ((forall h, h ∈ conf.Http_Rules serviceConfig ->
                annotations.Selector h ≠ selector) ->
     (forall a' method',
         a' ∈ conf.Apis serviceConfig -> method' ∈ api.Methods a' ->
         Sprintf_selector (api.Name a') (api.Method_Name method') = selector ->
         api.Name a' = api.Name a /\
         api.Method_Name method' = api.Method_Name method) ->
     scpb.Pattern r
     = {| commonpb.UriTemplate :=
            Sprintf_path (api.Name a) (api.Method_Name method);
          commonpb.HttpMethod := "POST" |}).
Proof.
  intros Hf Ha Hme selector.
  apply makeServiceControlFilter_Some
    in Hf as (_ & _ & _ & rulesMap & cfg & Hm & Hcfg & _ & Hrules).
  destruct (final_rule_of_method _ _ _ _ Hm Ha Hme) as [r Hr].
  fold selector in Hr. exists cfg, r.
  destruct (makeRulesMap_requires _ _ _ _ Hm Hr) as [Hop Hsn].
  split; [done|]. split; [by eapply emitted_rule|]. do 2 (split; [done|]).
  intros Hhttp Hsame.
  destruct (makeRulesMap_Ok _ _ Hm) as (m1 & H1 & H2).
  pose proof (keyed_preserve usageTarget usageUpd scpb.Pattern
                _ _ _ selector usageUpd_Pattern H2) as Hpat.
  rewrite Hr in Hpat.
  rewrite (keyed_untouched httpTarget httpUpd _ _ _ selector H1) in Hpat.
  - destruct (seedRules serviceConfig !! selector) as [r0|] eqn:E0; [|done].
    simpl in Hpat. injection Hpat as ->.
    apply seedRules_lookup_inv in E0 as ([a' method'] & Hin & Hsel & ->).
    apply elem_of_methodsOf in Hin as [Ha' Hme'].
    destruct (Hsame a' method' Ha' Hme' Hsel) as [Hna Hnm].
    simpl. by rewrite Hna, Hnm.
  - intros h Hin. unfold httpTarget.
    destruct (bindingOf (annotations.Pattern h)); [|done].
    intros [= Hsel]. by apply (Hhttp h).
Qed.

(** C5 (amended).  For every [usage.rules] entry that is the last one with
    its selector, the selector names an API method and the one rule of the
    emitted filter with that operation name carries an API-key requirement
    whose [allow_without_api_key] is the entry's [allow_unregistered_calls]
    and whose key sources are the query parameter [key] and then the header
    [x-api-key]. *)
Theorem C5_usage_rule_api_key serviceConfig f us1 u us2 :
  makeServiceControlFilter serviceConfig = Ok (Some f) ->
  conf.Usage_Rules serviceConfig = us1 ++ u :: us2 ->
  (forall u', u' ∈ us2 -> conf.Usage_Selector u' ≠ conf.Usage_Selector u) ->
  (exists a method,
      a ∈ conf.Apis serviceConfig /\ method ∈ api.Methods a /\
      Sprintf_selector (api.Name a) (api.Method_Name method)
      = conf.Usage_Selector u) /\
  exists cfg r,
    hcm.Config f = Struct_FilterConfig cfg /\
    rulesFor (conf.Usage_Selector u) cfg = [r] /\
    scpb.ApiKey (scpb.Requires r)
    = Some {| scpb.ApiKeys :=
                [scpb.APIKey_Query "key"; scpb.APIKey_Header "x-api-key"];
              scpb.AllowWithoutApiKey := conf.AllowUnregisteredCalls u |}.
Proof.
  intros Hf Hus Hlast.
  apply makeServiceControlFilter_Some
    in Hf as (_ & _ & _ & rulesMap & cfg & Hm & Hcfg & _ & Hrules).
  destruct (makeRulesMap_Ok _ _ Hm) as (m1 & H1 & H2).
  rewrite Hus in H2.
  destruct (keyed_last usageTarget usageUpd _ _ _ _ _
              (conf.Usage_Selector u) H2) as [r0 Hr]; [done| |].
  { intros u' Hin [= Hsel]. by apply (Hlast u'). }
  split.
  - destruct (seedRules serviceConfig !! conf.Usage_Selector u)
      as [rs|] eqn:E0.
    + apply seedRules_lookup_inv in E0 as ([a method] & Hin & Hsel & _).
      apply elem_of_methodsOf in Hin as [Ha Hme]. by exists a, method.
    + apply (makeRulesMap_dom _ _ _ Hm) in E0. by rewrite Hr in E0.
  - exists cfg, (usageUpd u r0). split; [done|].
    split; [by eapply emitted_rule|done].
Qed.

(** C6 (amended).  For every [http.rules] entry with a GET, PUT, POST,
    DELETE or PATCH pattern that no later such entry with the same selector
    follows, the one rule of the emitted filter with that operation name has
    the entry's verb and its URI template, unchanged, as its pattern. *)
Theorem C6_http_binding_pattern serviceConfig f hs1 h hs2 p :
  makeServiceControlFilter serviceConfig = Ok (Some f) ->
  conf.Http_Rules serviceConfig = hs1 ++ h :: hs2 ->
  bindingOf (annotations.Pattern h) = Some p ->
  (forall h', h' ∈ hs2 -> bindingOf (annotations.Pattern h') ≠ None ->
              annotations.Selector h' ≠ annotations.Selector h) ->
  exists cfg r,
    hcm.Config f = Struct_FilterConfig cfg /\
    rulesFor (annotations.Selector h) cfg = [r] /\
    scpb.Pattern r = p.
Proof.
  intros Hf Hhs Hp Hlast.
  apply makeServiceControlFilter_Some
    in Hf as (_ & _ & _ & rulesMap & cfg & Hm & Hcfg & _ & Hrules).
  destruct (makeRulesMap_Ok _ _ Hm) as (m1 & H1 & H2).
  rewrite Hhs in H1.
  destruct (keyed_last httpTarget httpUpd _ _ _ _ _
              (annotations.Selector h) H1) as [r0 Hr1].
  { unfold httpTarget. by rewrite Hp. }
  { intros h' Hin. unfold httpTarget.
    destruct (bindingOf (annotations.Pattern h')) eqn:Eb; [|done].
    intros [= Hsel]. apply (Hlast h'); [done|by rewrite Eb|done]. }
  pose proof (keyed_preserve usageTarget usageUpd scpb.Pattern
                _ _ _ (annotations.Selector h) usageUpd_Pattern H2) as Hpat.
  rewrite Hr1 in Hpat.
  destruct (rulesMap !! annotations.Selector h) as [r|] eqn:Er; [|done].
  simpl in Hpat. injection Hpat as Hpat.
  exists cfg, r. split; [done|]. split; [by eapply emitted_rule|].
  rewrite Hpat. unfold httpUpd. by rewrite Hp.
Qed.

(** C9 (amended).  When the service name and the control environment are
    non-empty, and the document has a [usage.rules] entry, or an
    [http.rules] entry with a GET, PUT, POST, DELETE or PATCH pattern, whose
    selector is [<api_name>.<method_name>] for no method of any API,
    [makeServiceControlFilter] dereferences the [nil] it looked up and
    panics.  On no document does it return an error. *)
Theorem C9_unmatched_selector_panics serviceConfig :
  conf.Name serviceConfig ≠ "" ->
  conf.Control_Environment serviceConfig ≠ "" ->
  (exists h, h ∈ conf.Http_Rules serviceConfig /\
             bindingOf (annotations.Pattern h) ≠ None /\
             unmatched serviceConfig (annotations.Selector h))
  \/ (exists u, u ∈ conf.Usage_Rules serviceConfig /\
                unmatched serviceConfig (conf.Usage_Selector u)) ->
  makeServiceControlFilter serviceConfig = Panic /\
  forall serviceConfig' e, makeServiceControlFilter serviceConfig' ≠ Err e.
Proof.
  intros Hn He Hbad. split; [|apply makeServiceControlFilter_never_Err].
  rewrite makeServiceControlFilter_enabled by done.
  destruct Hbad as [(h & Hin & Hb & Hun)|(u & Hin & Hun)].
  - by rewrite (makeRulesMap_Panic_http _ h).
  - by rewrite (makeRulesMap_Panic_usage _ u).
Qed.

(** ** The listener and the snapshot *)

Definition routerFilter : hcm.HttpFilter :=
  {| hcm.Name := util.Router; hcm.Config := Struct_empty |}.

(** The transcoder filter [makeListener] asks for: only for a gRPC backend. *)
Definition transcoderFor (serviceConfig : conf.Service)
    (endpointApi : api.Api) : option hcm.HttpFilter :=
  if strings.HasSuffix (api.SourceContext_FileName endpointApi) ".proto"
  then makeTranscoderFilter serviceConfig endpointApi
  else None.

Lemma makeTranscoderFilter_Some serviceConfig endpointApi f :
  makeTranscoderFilter serviceConfig endpointApi = Some f ->
  hcm.Name f = util.GRPCJSONTranscoder /\
  exists c, hcm.Config f = Struct_GrpcJsonTranscoder c
            /\ tc.Services c = [api.Name endpointApi].
Proof.
  unfold makeTranscoderFilter.
  induction (conf.SourceInfo_SourceFiles serviceConfig) as [|sf sfs IH];
    simpl; [done|].
  destruct (servicemanagement.FileType (UnmarshalAny sf)); try apply IH.
  intros [= <-]. split; [done|]. by eexists.
Qed.

Lemma makeListener_Ok serviceConfig endpointApi l mgr :
  makeListener serviceConfig endpointApi = Ok (l, mgr) ->
  (strings.HasSuffix (api.SourceContext_FileName endpointApi) ".proto" = true
   \/ strings.HasSuffix (api.SourceContext_FileName endpointApi) ".yaml" = true)
  /\ exists jwt scf,
    makeJwtAuthnFilter (Some serviceConfig) endpointApi = Ok jwt /\
    makeServiceControlFilter serviceConfig = Ok scf /\
    l = {| v2.Address :=
             {| core.Address := listenerAddress flags;
                core.PortValue := uint32 (listenerPort flags) |};
           v2.FilterChains := [] |} /\
    mgr = {| hcm.Codec := hcm.AUTO;
             hcm.StatPrefix := statPrefix;
             hcm.RouteConfig :=
               {| hcm.RouteConfig_Name := routeName;
                  hcm.VirtualHosts :=
                    [ {| route.Name := virtualHostName;
                         route.Domains := ["*"];
                         route.Routes :=
                           [ {| route.Match := route.RouteMatch_Prefix "/";
                                route.Action :=
                                  route.RouteAction_Cluster
                                    (api.Name endpointApi) |} ] |} ] |};
             hcm.HttpFilters :=
               option_list jwt ++ option_list scf
               ++ option_list (transcoderFor serviceConfig endpointApi)
               ++ [routerFilter] |}.
Proof.
  unfold makeListener, transcoderFor.
  destruct (strings.HasSuffix _ ".proto") eqn:Eproto;
    [|destruct (strings.HasSuffix _ ".yaml") eqn:Eyaml; [|done]];
    cbn [mbind Outcome_bind];
    (destruct (makeJwtAuthnFilter (Some serviceConfig) endpointApi)
       as [jwt| |]; [|done..]);
    cbn [mbind Outcome_bind];
    (destruct (makeServiceControlFilter serviceConfig) as [scf| |]; [|done..]);
    cbn [mbind Outcome_bind]; intros [= <- <-];
    (split; [by auto|]); exists jwt, scf; do 3 (split; [done|]);
    f_equal; destruct jwt, scf;
    try destruct (makeTranscoderFilter serviceConfig endpointApi); done.
Qed.

Lemma makeListener_unknown_protocol serviceConfig endpointApi :
  strings.HasSuffix (api.SourceContext_FileName endpointApi) ".proto" = false ->
  strings.HasSuffix (api.SourceContext_FileName endpointApi) ".yaml" = false ->
  makeListener serviceConfig endpointApi = Err "unknown backend protocol".
Proof. intros Hp Hy. unfold makeListener. by rewrite Hp, Hy. Qed.

(** C3.  When [makeListener] accepts a document, the HTTP filters are, in
    this order, the JWT-authn filter if its builder emitted one, the
    service-control filter if its builder emitted one, the transcoder filter
    if the backend is gRPC and its builder emitted one, and the router
    filter, which is always there and always last. *)
Theorem C3_filter_order serviceConfig endpointApi l mgr :
  makeListener serviceConfig endpointApi = Ok (l, mgr) ->
  exists jwt scf,
    makeJwtAuthnFilter (Some serviceConfig) endpointApi = Ok jwt /\
    makeServiceControlFilter serviceConfig = Ok scf /\
    hcm.HttpFilters mgr
    = option_list jwt ++ option_list scf
      ++ option_list
           (if strings.HasSuffix (api.SourceContext_FileName endpointApi)
                                 ".proto"
            then makeTranscoderFilter serviceConfig endpointApi
            else None)
      ++ [{| hcm.Name := util.Router; hcm.Config := Struct_empty |}] /\
    (forall f, jwt = Some f ->
       hcm.Name f = JwtAuthn /\
       exists c, hcm.Config f = Struct_JwtAuthentication c) /\
    (forall f, scf = Some f ->
       hcm.Name f = ServiceControl /\
       exists c, hcm.Config f = Struct_FilterConfig c) /\
    (forall f, transcoderFor serviceConfig endpointApi = Some f ->
       hcm.Name f = util.GRPCJSONTranscoder /\
       exists c, hcm.Config f = Struct_GrpcJsonTranscoder c) /\
    last (hcm.HttpFilters mgr)
    = Some {| hcm.Name := util.Router; hcm.Config := Struct_empty |}.
Proof.
  intros (_ & jwt & scf & Hjwt & Hscf & _ & ->)%makeListener_Ok.
  exists jwt, scf. do 3 (split; [done|]). split; [|split; [|split]].
  - intros f ->.
    apply makeJwtAuthnFilter_Some in Hjwt as (providers & out & _ & _ & -> & _).
    split; [done|]. by eexists.
  - intros f ->.
    apply makeServiceControlFilter_Some in Hscf
      as (_ & _ & Hname & _ & cfg & _ & Hcfg & _).
    split; [done|]. by exists cfg.
  - intros f Hf. unfold transcoderFor in Hf.
    destruct (strings.HasSuffix _ _); [|done].
    apply makeTranscoderFilter_Some in Hf as (Hname & c & Hc & _).
    split; [done|]. by exists c.
  - cbn [hcm.HttpFilters]. rewrite !app_assoc. apply last_snoc.
Qed.

Lemma makeSnapshot_Ok m serviceConfig snap :
  makeSnapshot m serviceConfig = Ok snap ->
  exists endpointApi rest l mgr,
    conf.Apis serviceConfig = endpointApi :: rest /\
    makeListener serviceConfig endpointApi = Ok (l, mgr) /\
    MessageToStruct_err mgr = None /\
    snap
    = cache.NewSnapshot (configID m) []
        [cache.Resource_Cluster
           {| v2.Name := api.Name endpointApi;
              v2.LbPolicy := v2.Cluster_ROUND_ROBIN;
              v2.ConnectTimeout := clusterConnectTimeout flags;
              v2.Hosts :=
                [ {| core.Address := clusterAddress flags;
                     core.PortValue := uint32 (clusterPort flags) |} ] |}]
        []
        [cache.Resource_Listener
           {| v2.Address := v2.Address l;
              v2.FilterChains :=
                [ {| listener.Filters :=
                       [ {| listener.Name := util.HTTPConnectionManager;
                            listener.Config := mgr |} ] |} ] |}].
Proof.
  unfold makeSnapshot.
  destruct (conf.Apis serviceConfig) as [|endpointApi rest]; [done|].
  destruct (makeListener serviceConfig endpointApi) as [[l mgr]| |] eqn:El;
    [|done..].
  cbn [mbind Outcome_bind].
  destruct (MessageToStruct_err mgr) as [err|] eqn:Ec; [done|].
  cbn [mbind Outcome_bind]. intros [= <-]. by exists endpointApi, rest, l, mgr.
Qed.

(** [makeListener] returns a listener whenever the source file of the API
    tells the backend protocol and neither filter builder panics. *)
Lemma makeListener_is_Ok serviceConfig endpointApi :
  strings.HasSuffix (api.SourceContext_FileName endpointApi) ".proto" = true
  \/ strings.HasSuffix (api.SourceContext_FileName endpointApi) ".yaml" = true ->
  is_Ok (makeJwtAuthnFilter (Some serviceConfig) endpointApi) ->
  is_Ok (makeServiceControlFilter serviceConfig) ->
  is_Ok (makeListener serviceConfig endpointApi).
Proof.
  intros Hsuffix [jwt Hjwt] [scf Hscf]. unfold makeListener.
  rewrite Hjwt, Hscf.
  destruct (strings.HasSuffix _ ".proto");
    [|destruct Hsuffix as [Hp|Hy]; [done|rewrite Hy]]; by eexists.
Qed.

(** C2.  For a document with at least one API, the snapshot [makeSnapshot]
    builds has the manager's [config_id] as the version of all four resource
    sets, no endpoints and no routes, one cluster, named after the first
    API, and one listener, with one filter chain of one connection manager
    whose one virtual host has one route, to the cluster of that name; so
    every cluster a route of the snapshot names is in its cluster set. *)
Theorem C2_snapshot_shape m serviceConfig snap :
  conf.Apis serviceConfig ≠ [] ->
  makeSnapshot m serviceConfig = Ok snap ->
  exists endpointApi rest cluster l mgr vh,
    conf.Apis serviceConfig = endpointApi :: rest /\
    cache.Version (cache.Endpoints snap) = configID m /\
    cache.Version (cache.Clusters snap) = configID m /\
    cache.Version (cache.Routes snap) = configID m /\
    cache.Version (cache.Listeners snap) = configID m /\
    cache.Items (cache.Endpoints snap) = [] /\
    cache.Items (cache.Routes snap) = [] /\
    cache.Items (cache.Clusters snap) = [cache.Resource_Cluster cluster] /\
    v2.Name cluster = api.Name endpointApi /\
    cache.Items (cache.Listeners snap) = [cache.Resource_Listener l] /\
    v2.FilterChains l
    = [ {| listener.Filters :=
             [ {| listener.Name := util.HTTPConnectionManager;
                  listener.Config := mgr |} ] |} ] /\
    hcm.VirtualHosts (hcm.RouteConfig mgr) = [vh] /\
    route.Routes vh
    = [ {| route.Match := route.RouteMatch_Prefix "/";
           route.Action := route.RouteAction_Cluster (v2.Name cluster) |} ] /\
    (forall mgr' c, mgr' ∈ snapshotManagers snap -> c ∈ routedClusters mgr' ->
                    c ∈ snapshotClusterNames snap).
Proof.
  intros _ (endpointApi & rest & l & mgr & Hapis & Hl & _ & ->)%makeSnapshot_Ok.
  apply makeListener_Ok in Hl as (_ & jwt & scf & _ & _ & -> & ->).
  eexists endpointApi, rest, _, _, _, _.
  do 13 (split; [done|]).
  intros mgr' c Hmgr Hc. cbn in Hmgr. apply list_elem_of_singleton in Hmgr as ->.
  cbn in Hc. cbn. done.
Qed.

(** C10.  In the snapshot built from a document, every requirement rule of
    the JWT-authn filter stands for one authentication rule, in order, and
    its path match is the prefix [/<name of the first API>/<last
    dot-separated segment of the rule's selector>], whatever the segments
    before the last one are. *)
Theorem C10_jwt_rule_path m serviceConfig snap endpointApi rest mgr name c :
  conf.Apis serviceConfig = endpointApi :: rest ->
  makeSnapshot m serviceConfig = Ok snap ->
  mgr ∈ snapshotManagers snap ->
  {| hcm.Name := name; hcm.Config := Struct_JwtAuthentication c |}
    ∈ hcm.HttpFilters mgr ->
  Forall2
    (fun rule ruleConfig =>
       exists segment,
         last (strings.Split (conf.Auth_Selector rule) dot) = Some segment /\
         ac.Match ruleConfig
         = route.RouteMatch_Prefix
             ("/" +:+ api.Name endpointApi +:+ "/" +:+ segment))
    (rulesBeforeEmpty (conf.Rules (conf.Auth serviceConfig)))
    (ac.Rules c).
Proof.
  intros Hapis (a0 & rest' & l & mgr0 & Hapis' & Hl & _ & ->)%makeSnapshot_Ok
    Hmgr Hin.
  rewrite Hapis in Hapis'. injection Hapis' as <- <-.
  cbn in Hmgr. apply list_elem_of_singleton in Hmgr as ->.
  apply makeListener_Ok in Hl as (_ & jwt & scf & Hjwt & Hscf & _ & ->).
  cbn [hcm.HttpFilters] in Hin.
  assert (jwt = Some {| hcm.Name := name;
                        hcm.Config := Struct_JwtAuthentication c |}) as ->.
  { apply elem_of_app in Hin as [Hin|Hin].
    - destruct jwt as [f|]; [|by inversion Hin].
      by apply list_elem_of_singleton in Hin as <-.
    - exfalso. apply elem_of_app in Hin as [Hin|Hin].
      + destruct scf as [f|]; [|by inversion Hin].
        apply list_elem_of_singleton in Hin as <-.
        apply makeServiceControlFilter_Some in Hscf
          as (_ & _ & _ & _ & cfg & _ & Hcfg & _). done.
      + apply elem_of_app in Hin as [Hin|Hin].
        * destruct (transcoderFor serviceConfig endpointApi) as [f|] eqn:Et;
            [|by inversion Hin].
          apply list_elem_of_singleton in Hin as <-.
          unfold transcoderFor in Et. destruct (strings.HasSuffix _ _); [|done].
          by apply makeTranscoderFilter_Some in Et as (_ & c' & Hc' & _).
        * by apply list_elem_of_singleton in Hin. }
  apply makeJwtAuthnFilter_Some in Hjwt as (providers & out & _ & _ & Hf & Hout).
  injection Hf as _ ->. cbn [ac.Rules].
  eapply Forall2_impl; [exact Hout|].
  intros rule ruleConfig (seg & Hseg & ->). by exists seg.
Qed.

(** ** Key-set collection and start-up *)

(** C7.  When the providers are [ps1], all of whose key sets are fetched,
    then [p], whose fetch returns an error, then [ps2]: the collection ends
    at [p] without a panic, and the collected providers are those of [ps1]
    alone, whatever the fetches of [ps2] would give; the filter is emitted
    exactly when [ps1] is not empty, over those providers; and whenever the
    collected map is empty the builder returns no filter and no error. *)
Theorem C7_jwks_failure_aborts serviceConfig endpointApi ps1 p ps2 err :
  conf.Providers (conf.Auth serviceConfig) = ps1 ++ p :: ps2 ->
  Forall (fun q => is_Ok (fetchJwk (conf.JwksUri q))) ps1 ->
  fetchJwk (conf.JwksUri p) = Err err ->
  exists providers,
    collectProviders ps1 ∅ = Ok providers /\
    collectProviders (ps1 ++ p :: ps2) ∅ = Ok providers /\
    dom providers = (list_to_set (conf.Id <$> ps1) : gset string) /\
    (forall f, makeJwtAuthnFilter (Some serviceConfig) endpointApi = Ok (Some f)
               -> ps1 ≠ []) /\
    (ps1 ≠ [] ->
     exists f c,
       makeJwtAuthnFilter (Some serviceConfig) endpointApi = Ok (Some f)
       /\ hcm.Config f = Struct_JwtAuthentication c
       /\ ac.Providers c = renderProvider <$> providers) /\
    (collectProviders (conf.Providers (conf.Auth serviceConfig)) ∅ = Ok ∅ ->
     makeJwtAuthnFilter (Some serviceConfig) endpointApi = Ok None).
Proof.
  intros Hps Hok Hfail.
  destruct (collectProviders_all_ok ps1 ∅ Hok) as (providers & Hc1 & Hdom).
  assert (collectProviders (ps1 ++ p :: ps2) ∅ = Ok providers) as Habort.
  { rewrite collectProviders_app_ok, Hc1 by done.
    cbn [mbind Outcome_bind]. by eapply collectProviders_fail. }
  exists providers. do 2 (split; [done|]). split.
  { by rewrite Hdom, dom_empty_L, (left_id_L ∅ (∪)). }
  pose proof (makeJwtAuthnFilter_cases serviceConfig endpointApi) as Hcases.
  cbn zeta in Hcases. rewrite Hps, Habort in Hcases.
  rewrite Hps, Habort.
  destruct Hcases
    as [[Hp _]|[[Hempty Hnone]|(m & out & Hm & Hne & Hsome & _)]];
    [discriminate Hp| |].
  - injection Hempty as ->.
    split; [intros f Hf; rewrite Hnone in Hf; discriminate Hf|].
    split; [|intros _; exact Hnone].
    intros Hps1. exfalso. apply Hps1.
    by apply (collectProviders_ok_nonempty ps1 ∅ Hok Hc1).
  - injection Hm as <-. split; [|split].
    + intros f _ ->. apply Hne. simpl in Hc1. by injection Hc1 as <-.
    + intros _. by eexists _, _.
    + intros [= ->]. by destruct Hne.
Qed.

Lemma init_cases m :
  (exists err, init m = (Err err, m)) \/
  init m = (Panic, m) \/
  (exists serviceConfig snapshot,
      fetchConfig m (configID m) = Ok serviceConfig /\
      makeSnapshot m serviceConfig = Ok snapshot /\
      init m
      = (Ok tt,
         {| serviceName := serviceName m;
            configID := configID m;
            cache := cache.SetSnapshot (cache m) (node flags) snapshot |})).
Proof.
  unfold init.
  destruct (fetchConfig m (configID m)) as [serviceConfig|err|] eqn:Ef;
    [|left; by eexists|by right; left].
  destruct (makeSnapshot m serviceConfig) as [snapshot|err|] eqn:Es;
    [|left; by eexists|by right; left].
  right; right. by exists serviceConfig, snapshot.
Qed.

(** [init] on a fetched document whose snapshot is built: one call of
    [SetSnapshot], under the node id, with that snapshot. *)
Lemma init_publishes m serviceConfig snapshot :
  fetchConfig m (configID m) = Ok serviceConfig ->
  makeSnapshot m serviceConfig = Ok snapshot ->
  init m
  = (Ok tt,
     {| serviceName := serviceName m;
        configID := configID m;
        cache := cache.SetSnapshot (cache m) (node flags) snapshot |}).
Proof. intros Hf Hs. unfold init. by rewrite Hf, Hs. Qed.

(** C8.  [init] returns an error and leaves the cache as it was when the
    configuration fetch returns an error, when the fetched document has no
    API, and when the source file of its first API ends in neither [.proto]
    nor [.yaml]; a panic of the fetch or of the snapshot builder leaves the
    cache as it was, too.  When the fetch gives a document and
    [makeSnapshot] builds a snapshot from it, [init] returns success and the
    cache is the old one after ONE [SetSnapshot], of that snapshot under the
    node id: the new entry is in front of the untouched old entries.  So
    [init] either leaves the cache as it was and does not return success, or
    returns success and has published that one snapshot; and a manager made
    by [NewConfigManager] holds exactly one snapshot, the one built from the
    fetched document. *)
Theorem C8_no_partial_publication m :
  (forall err, fetchConfig m (configID m) = Err err ->
               exists err', init m = (Err err', m)) /\
  (fetchConfig m (configID m) = Panic -> init m = (Panic, m)) /\
  (forall serviceConfig,
      fetchConfig m (configID m) = Ok serviceConfig ->
      conf.Apis serviceConfig = [] ->
      exists err', init m = (Err err', m)) /\
  (forall serviceConfig endpointApi rest,
      fetchConfig m (configID m) = Ok serviceConfig ->
      conf.Apis serviceConfig = endpointApi :: rest ->
      strings.HasSuffix (api.SourceContext_FileName endpointApi) ".proto"
      = false ->
      strings.HasSuffix (api.SourceContext_FileName endpointApi) ".yaml"
      = false ->
      exists err', init m = (Err err', m)) /\
  (forall serviceConfig,
      fetchConfig m (configID m) = Ok serviceConfig ->
      (forall err, makeSnapshot m serviceConfig = Err err ->
                   exists err', init m = (Err err', m)) /\
      (makeSnapshot m serviceConfig = Panic -> init m = (Panic, m))) /\
  (forall serviceConfig snapshot,
      fetchConfig m (configID m) = Ok serviceConfig ->
      makeSnapshot m serviceConfig = Ok snapshot ->
      exists m',
        init m = (Ok tt, m') /\
        serviceName m' = serviceName m /\
        configID m' = configID m /\
        cache m' = (node flags, snapshot) :: cache m) /\
  (forall r m', init m = (r, m') ->
     (r ≠ Ok tt /\ m' = m) \/
     (r = Ok tt /\
      exists serviceConfig snapshot,
        fetchConfig m (configID m) = Ok serviceConfig /\
        makeSnapshot m serviceConfig = Ok snapshot /\
        cache m' = cache.SetSnapshot (cache m) (node flags) snapshot /\
        cache m' = (node flags, snapshot) :: cache m)) /\
  (forall name id m',
      NewConfigManager name id = Ok m' ->
      exists serviceConfig snapshot,
        fetchConfig {| serviceName := name; configID := id;
                       cache := cache.NewSnapshotCache |} id
        = Ok serviceConfig /\
        makeSnapshot {| serviceName := name; configID := id;
                        cache := cache.NewSnapshotCache |} serviceConfig
        = Ok snapshot /\
        cache m' = [(node flags, snapshot)]) /\
  (forall name id serviceConfig snapshot,
      let m0 := {| serviceName := name; configID := id;
                   cache := cache.NewSnapshotCache |} in
      fetchConfig m0 id = Ok serviceConfig ->
      makeSnapshot m0 serviceConfig = Ok snapshot ->
      NewConfigManager name id
      = Ok {| serviceName := name; configID := id;
              cache := [(node flags, snapshot)] |}).
Proof.
  split; [|split; [|split; [|split; [|split; [|split; [|split; [|split]]]]]]].
  - intros err E. unfold init. rewrite E. by eexists.
  - intros E. unfold init. by rewrite E.
  - intros serviceConfig E Hapis. unfold init, makeSnapshot.
    rewrite E, Hapis. by eexists.
  - intros serviceConfig endpointApi rest E Hapis Hp Hy.
    unfold init, makeSnapshot. rewrite E, Hapis.
    rewrite makeListener_unknown_protocol by done. by eexists.
  - intros serviceConfig E. split.
    + intros err Hs. unfold init. rewrite E, Hs. by eexists.
    + intros Hs. unfold init. by rewrite E, Hs.
  - intros serviceConfig snapshot E Hs.
    rewrite (init_publishes m serviceConfig snapshot E Hs).
    by eexists.
  - intros r m' E.
    destruct (init_cases m) as [[err H]|[H|(sc & snap & Hf & Hs & H)]];
      rewrite H in E; injection E as <- <-.
    + by left.
    + by left.
    + right. split; [done|]. by exists sc, snap.
  - intros name id m'. unfold NewConfigManager.
    match goal with |- context [init ?m0] => set (m0' := m0);
      destruct (init_cases m0') as [[err H]|[H|(sc & snap & Hf & Hs & H)]] end;
      rewrite H; [done|done|].
    intros [= <-]. by exists sc, snap.
  - intros name id serviceConfig snapshot m0 E Hs. unfold NewConfigManager.
    subst m0. by rewrite (init_publishes _ serviceConfig snapshot E Hs).
Qed.

(** * Further properties of the builders *)

(** ** Strings: pieces, suffixes, replacement *)

(** [strings.Join(elems, sep)] for a one-byte separator. *)
Fixpoint Join (elems : list string) (sep : ascii) : string :=
  match elems with
  | [] => ""
  | x :: rest =>
      match rest with
      | [] => x
      | _ :: _ => x +:+ String sep (Join rest sep)
      end
  end.

(** [strings.IndexByte(s, c) >= 0] *)
Fixpoint containsByte (c : ascii) (s : string) : bool :=
  match s with
  | EmptyString => false
  | String a s' => Ascii.eqb a c || containsByte c s'
  end.

Lemma append_nil_l (t : string) : "" +:+ t = t.
Proof. reflexivity. Qed.

Lemma append_cons c (s t : string) : String c s +:+ t = String c (s +:+ t).
Proof. reflexivity. Qed.

Lemma append_assoc (s1 s2 s3 : string) :
  (s1 +:+ s2) +:+ s3 = s1 +:+ (s2 +:+ s3).
Proof.
  induction s1 as [|c s1 IH]; [done|]. rewrite !append_cons. by f_equal.
Qed.

Lemma length_append (s1 s2 : string) :
  String.length (s1 +:+ s2) = (String.length s1 + String.length s2)%nat.
Proof.
  induction s1 as [|c s1 IH]; [done|]. rewrite append_cons. simpl. by f_equal.
Qed.

Lemma containsByte_append c s1 s2 :
  containsByte c (s1 +:+ s2) = containsByte c s1 || containsByte c s2.
Proof.
  induction s1 as [|a s1 IH]; [done|].
  rewrite append_cons. simpl. by rewrite IH, orb_assoc.
Qed.

Lemma substring_all (s : string) : substring 0 (String.length s) s = s.
Proof. induction s as [|c s IH]; simpl; [done|]. by rewrite IH. Qed.

Lemma substring_skip (pre t : string) n :
  substring (String.length pre) n (pre +:+ t) = substring 0 n t.
Proof.
  induction pre as [|c pre IH]; [done|]. rewrite append_cons. simpl. apply IH.
Qed.

Lemma substring_split (s : string) m :
  (m <= String.length s)%nat ->
  s = substring 0 m s +:+ substring m (String.length s - m) s.
Proof.
  revert m. induction s as [|c s IH]; intros m Hm.
  - simpl in Hm. by replace m with 0%nat by lia.
  - destruct m as [|m]; simpl.
    + by rewrite append_nil_l, substring_all.
    + simpl in Hm. rewrite append_cons, <- IH by lia. done.
Qed.

Lemma prefix_append (s t : string) : String.prefix s (s +:+ t) = true.
Proof.
  induction s as [|c s IH]; [by destruct t|].
  rewrite append_cons. simpl. by destruct (ascii_dec c c).
Qed.

(** The pieces of [Split], joined by the separator, are the string. *)
Lemma Join_cons x y l sep :
  Join (x :: y :: l) sep = x +:+ String sep (Join (y :: l) sep).
Proof. reflexivity. Qed.

Lemma Join_Split s sep : Join (strings.Split s sep) sep = s.
Proof.
  induction s as [|c s IH]; [done|]. cbn [strings.Split].
  destruct (Ascii.eqb_spec c sep) as [->|Hne].
  - destruct (strings.Split s sep) as [|seg segs] eqn:E.
    { by apply Split_not_nil in E. }
    by rewrite Join_cons, IH.
  - destruct (strings.Split s sep) as [|seg segs] eqn:E.
    { by apply Split_not_nil in E. }
    destruct segs as [|seg' segs].
    + cbn [Join] in *. by rewrite IH.
    + rewrite Join_cons in *. by rewrite append_cons, IH.
Qed.

(** No piece of [Split] has the separator in it. *)
Lemma Split_no_sep s sep :
  Forall (fun seg => containsByte sep seg = false) (strings.Split s sep).
Proof.
  induction s as [|c s IH]; cbn [strings.Split]; [by repeat constructor|].
  destruct (Ascii.eqb c sep) eqn:Ec; [by constructor|].
  destruct (strings.Split s sep) as [|seg segs].
  - repeat constructor. simpl. by rewrite Ec.
  - inversion IH; subst. constructor; [|done]. simpl. by rewrite Ec.
Qed.

Lemma Join_snoc l x sep :
  Join (l ++ [x]) sep
  = match l with
    | [] => x
    | _ :: _ => Join l sep +:+ String sep x
    end.
Proof.
  induction l as [|y l IH]; [done|].
  destruct l as [|z l]; [done|].
  change ((y :: z :: l) ++ [x]) with (y :: z :: (l ++ [x])).
  rewrite !Join_cons. change (z :: l ++ [x]) with ((z :: l) ++ [x]).
  by rewrite IH, append_assoc.
Qed.

(** The last piece of [Split] is the text after the last separator. *)
Lemma last_Split_suffix s sep seg :
  last (strings.Split s sep) = Some seg ->
  containsByte sep seg = false /\
  (s = seg \/ exists pre, s = pre +:+ String sep seg).
Proof.
  intros Hlast.
  destruct (strings.Split s sep) as [|x l] eqn:E using rev_ind.
  { by apply Split_not_nil in E. }
  clear IHl. rewrite last_snoc in Hlast. injection Hlast as ->.
  split.
  - pose proof (Split_no_sep s sep) as Hall. rewrite E in Hall.
    apply Forall_app in Hall as [_ Hseg]. by inversion Hseg.
  - pose proof (Join_Split s sep) as Hjoin. rewrite E, Join_snoc in Hjoin.
    destruct l as [|y l]; [by left|]. right. by eexists.
Qed.

(** [strings.HasSuffix(s, suffix)] holds exactly of the strings that end in
    [suffix]. *)
Lemma HasSuffix_spec s suffix :
  strings.HasSuffix s suffix = true <-> exists pre, s = pre +:+ suffix.
Proof.
  unfold strings.HasSuffix. rewrite andb_true_iff, Nat.leb_le, String.eqb_eq.
  split.
  - intros [Hle Hsub].
    exists (substring 0 (String.length s - String.length suffix) s).
    pose proof (substring_split s (String.length s - String.length suffix))
      as Hsplit.
    replace (String.length s - (String.length s - String.length suffix))%nat
      with (String.length suffix) in Hsplit by lia.
    rewrite Hsub in Hsplit. apply Hsplit. lia.
  - intros [pre ->]. rewrite length_append. split; [lia|].
    replace (String.length pre + String.length suffix - String.length suffix)%nat
      with (String.length pre) by lia.
    by rewrite substring_skip, substring_all.
Qed.

(** Replacing the first occurrence of a placeholder that starts with a byte
    the text before it does not have. *)
Lemma Replace1_first c old' a b new :
  containsByte c a = false ->
  strings.Replace1 (a +:+ String c old' +:+ b) (String c old') new
  = a +:+ new +:+ b.
Proof.
  intros Ha. induction a as [|x a IH].
  - rewrite !append_nil_l, (append_cons c old' b). cbn [strings.Replace1].
    rewrite <- append_cons, prefix_append, length_append.
    replace (String.length (String c old') + String.length b
             - String.length (String c old'))%nat
      with (String.length b) by lia.
    by rewrite substring_skip, substring_all.
  - simpl in Ha. apply orb_false_iff in Ha as [Hx Ha].
    rewrite (append_cons x a). cbn [strings.Replace1 String.prefix].
    destruct (ascii_dec c x) as [->|Hne].
    { by rewrite Ascii.eqb_refl in Hx. }
    by rewrite IH, append_cons.
Qed.

(** ** The configuration URL *)

(** X1.  When neither the service-management URL nor the service name has a
    [$] in it, the configuration URL is the base, [/v1/services/], the
    service name, [/configs/], the configuration id and [?view=FULL]; the
    configuration id may be any string. *)
Theorem X1_fetchConfigURL_expected serviceName configID :
  containsByte "$" (serviceManagementURL flags) = false ->
  containsByte "$" serviceName = false ->
  fetchConfigURL serviceName configID
  = serviceManagementURL flags +:+ "/v1/services/" +:+ serviceName
    +:+ "/configs/" +:+ configID +:+ "?view=FULL".
Proof.
  intros Hbase Hname. unfold fetchConfigURL, fetchConfigSufix.
  change "/v1/services/$serviceName/configs/$configId?view=FULL"
    with ("/v1/services/" +:+ String "$" "serviceName"
          +:+ "/configs/$configId?view=FULL").
  rewrite <- (append_assoc (serviceManagementURL flags)).
  rewrite Replace1_first.
  2:{ by rewrite containsByte_append, Hbase. }
  change "/configs/$configId?view=FULL"
    with ("/configs/" +:+ String "$" "configId" +:+ "?view=FULL").
  rewrite <- (append_assoc serviceName), <- (append_assoc _ _ (_ +:+ _)).
  rewrite Replace1_first.
  2:{ by rewrite !containsByte_append, Hbase, Hname. }
  by rewrite !append_assoc.
Qed.

(** ** The transcoder filter *)

(** X2.  [makeTranscoderFilter] returns no filter exactly when no source file
    is a [ConfigFile] of type [FILE_DESCRIPTOR_SET_PROTO]; otherwise the
    filter embeds the contents of the first such file, whatever follows it,
    and lists the name of the API as its one service. *)
Theorem X2_transcoder_first_descriptor serviceConfig endpointApi :
  let isDescriptor (a : Any) :=
    servicemanagement.FileType (UnmarshalAny a)
    = servicemanagement.ConfigFile_FILE_DESCRIPTOR_SET_PROTO in
  (makeTranscoderFilter serviceConfig endpointApi = None <->
   Forall (fun a => ¬ isDescriptor a)
          (conf.SourceInfo_SourceFiles serviceConfig)) /\
  (forall pre sf post,
      conf.SourceInfo_SourceFiles serviceConfig = pre ++ sf :: post ->
      Forall (fun a => ¬ isDescriptor a) pre ->
      isDescriptor sf ->
      makeTranscoderFilter serviceConfig endpointApi
      = Some {| hcm.Name := util.GRPCJSONTranscoder;
                hcm.Config :=
                  Struct_GrpcJsonTranscoder
                    {| tc.ProtoDescriptorBin :=
                         servicemanagement.FileContents (UnmarshalAny sf);
                       tc.Services := [api.Name endpointApi] |} |}).
Proof.
  intros isDescriptor. unfold makeTranscoderFilter.
  generalize (conf.SourceInfo_SourceFiles serviceConfig). intros files. split.
  - induction files as [|a files IH]; simpl; [by split|].
    destruct (servicemanagement.FileType (UnmarshalAny a)) eqn:E;
      try (rewrite IH; split;
           [intros H; constructor; [unfold isDescriptor; congruence|done]
           |by inversion 1]).
    split; [done|]. inversion 1 as [|? ? Hhd]. by destruct Hhd.
  - intros pre sf post -> Hpre Hsf.
    induction Hpre as [|a pre Ha _ IH]; simpl.
    + unfold isDescriptor in Hsf. by rewrite Hsf.
    + unfold isDescriptor in Ha.
      by destruct (servicemanagement.FileType (UnmarshalAny a)).
Qed.

(** ** The JWT-authn filter *)

(** The collection of the key sets panics: the fetch of some provider
    panics, and the loop gets to it because the key set of every provider
    before it was fetched. *)
Definition fetchPanics (ps : list conf.AuthProvider) : Prop :=
  exists ps1 p ps2,
    ps = ps1 ++ p :: ps2 /\
    Forall (fun q => is_Ok (fetchJwk (conf.JwksUri q))) ps1 /\
    fetchJwk (conf.JwksUri p) = Panic.

Lemma collectProviders_Panic ps providers :
  collectProviders ps providers = Panic <-> fetchPanics ps.
Proof.
  revert providers. induction ps as [|p ps IH]; intros providers.
  - split; [done|]. intros (ps1 & q & ps2 & E & _). by destruct ps1.
  - simpl. destruct (fetchJwk (conf.JwksUri p)) as [jwk|e|] eqn:Ep.
    + rewrite IH. split.
      * intros (ps1 & q & ps2 & -> & Hok & Hq). exists (p :: ps1), q, ps2.
        split; [done|]. split; [|done]. constructor; [by eexists|done].
      * intros (ps1 & q & ps2 & E & Hok & Hq). destruct ps1 as [|p' ps1].
        { simpl in E. injection E as <- _. congruence. }
        simpl in E. injection E as <- ->. inversion Hok; subst.
        by exists ps1, q, ps2.
    + split; [done|]. intros (ps1 & q & ps2 & E & Hok & Hq).
      destruct ps1 as [|p' ps1]; simpl in E; injection E as <- _.
      * congruence.
      * inversion Hok as [|? ? [jwk Hjwk]]; subst. congruence.
    + split; [|done]. intros _. exists [], p, ps. by split.
Qed.

Lemma makeJwtAuthnFilter_never_Err serviceConfig endpointApi e :
  makeJwtAuthnFilter serviceConfig endpointApi ≠ Err e.
Proof.
  destruct serviceConfig as [serviceConfig|]; [|done].
  destruct (makeJwtAuthnFilter_cases serviceConfig endpointApi)
    as [[_ ->]|[[_ ->]|(providers & out & _ & _ & -> & _)]]; done.
Qed.

Lemma makeJwtAuthnFilter_Panic serviceConfig endpointApi :
  makeJwtAuthnFilter (Some serviceConfig) endpointApi = Panic
  <-> fetchPanics (conf.Providers (conf.Auth serviceConfig)).
Proof.
  rewrite <- (collectProviders_Panic _ ∅).
  destruct (makeJwtAuthnFilter_cases serviceConfig endpointApi)
    as [[-> ->]|[[-> ->]|(providers & out & -> & _ & -> & _)]]; done.
Qed.

Lemma makeJwtAuthnFilter_is_Ok serviceConfig endpointApi :
  is_Ok (makeJwtAuthnFilter (Some serviceConfig) endpointApi)
  <-> ¬ fetchPanics (conf.Providers (conf.Auth serviceConfig)).
Proof.
  rewrite <- (collectProviders_Panic _ ∅).
  destruct (makeJwtAuthnFilter_cases serviceConfig endpointApi)
    as [[-> ->]|[[-> ->]|(providers & out & -> & _ & -> & _)]].
  - split; [by intros [? ?]|by intros []].
  - split; [done|]. intros _. by eexists.
  - split; [done|]. intros _. by eexists.
Qed.

(** X3.  [makeJwtAuthnFilter] never returns an error.  Without a document it
    returns no filter.  With one it panics exactly when the collection of
    the key sets does, in the fetch of a provider that the loop reaches, and
    it returns in every other case.  Its requirement rules are built without
    a panic: the index [m[len(m)-1]] is in range because [strings.Split]
    gives at least one piece, and [GetRequiresAny()] is not [nil] where
    requirements are appended. *)
Theorem X3_makeJwtAuthnFilter_outcomes serviceConfig endpointApi :
  (forall document e, makeJwtAuthnFilter document endpointApi ≠ Err e) /\
  makeJwtAuthnFilter None endpointApi = Ok None /\
  (makeJwtAuthnFilter (Some serviceConfig) endpointApi = Panic
   <-> fetchPanics (conf.Providers (conf.Auth serviceConfig))) /\
  (is_Ok (makeJwtAuthnFilter (Some serviceConfig) endpointApi)
   <-> ¬ fetchPanics (conf.Providers (conf.Auth serviceConfig))) /\
  (forall authRules,
      exists rules, makeRequirementRules endpointApi authRules [] = Ok rules).
Proof.
  split; [intros document e; apply makeJwtAuthnFilter_never_Err|].
  split; [done|].
  split; [apply makeJwtAuthnFilter_Panic|].
  split; [apply makeJwtAuthnFilter_is_Ok|].
  intros authRules.
  destruct (makeRequirementRules_ok endpointApi authRules []) as (out & -> & _).
  by eexists.
Qed.

Lemma collectProviders_keeps ps providers collected k :
  collectProviders ps providers = Ok collected ->
  is_Some (providers !! k) -> is_Some (collected !! k).
Proof.
  revert providers. induction ps as [|p ps IH]; intros providers Hc Hk.
  { simpl in Hc. by injection Hc as <-. }
  simpl in Hc.
  destruct (fetchJwk (conf.JwksUri p)); [|by injection Hc as <-|done].
  apply (IH _ Hc). destruct (decide (conf.Id p = k)) as [->|Hne].
  - rewrite lookup_insert_eq. by eexists.
  - by rewrite lookup_insert_ne.
Qed.


Lemma collectProviders_inv ps providers collected k jp :
  collectProviders ps providers = Ok collected ->
  collected !! k = Some jp ->
  providers !! k = Some jp \/
  exists p jwk, p ∈ ps /\ fetchJwk (conf.JwksUri p) = Ok jwk /\
                conf.Id p = k /\ jp = makeJwtProvider p jwk.
Proof.
  revert providers. induction ps as [|p ps IH]; intros providers Hc Hk.
  { simpl in Hc. injection Hc as <-. by left. }
  simpl in Hc.
  destruct (fetchJwk (conf.JwksUri p)) as [jwk|e|] eqn:E;
    [|injection Hc as <-; by left|done].
  destruct (IH _ Hc Hk) as [Hk'|(q & jwk' & Hq & Hf & Hid & Hjp)].
  - apply lookup_insert_Some in Hk' as [[Hid Hjp]|[_ Hk']]; [|by left].
    right. exists p, jwk. split; [by left|done].
  - right. exists q, jwk'. split; [by right|done].
Qed.

(** X4.  The filter is emitted exactly when the document has a first
    provider, the fetch of its key set succeeds, and no fetch that the loop
    reaches after it panics.  An error of the first fetch leaves the gateway
    without JWT authentication, whatever the other providers are. *)
Theorem X4_jwt_filter_iff_first_fetch serviceConfig endpointApi :
  ((exists f, makeJwtAuthnFilter (Some serviceConfig) endpointApi = Ok (Some f))
   <->
   (exists p rest jwk,
       conf.Providers (conf.Auth serviceConfig) = p :: rest /\
       fetchJwk (conf.JwksUri p) = Ok jwk) /\
   ¬ fetchPanics (conf.Providers (conf.Auth serviceConfig))) /\
  (forall p rest err,
      conf.Providers (conf.Auth serviceConfig) = p :: rest ->
      fetchJwk (conf.JwksUri p) = Err err ->
      makeJwtAuthnFilter (Some serviceConfig) endpointApi = Ok None).
Proof.
  pose proof (collectProviders_Panic
                (conf.Providers (conf.Auth serviceConfig)) ∅) as Hpanic.
  destruct (makeJwtAuthnFilter_cases serviceConfig endpointApi)
    as [[Hc H]|[[Hc H]|(providers & out & Hc & Hne & H & _)]]; rewrite H.
  - split.
    + split; [by intros [f Hf]|]. intros [_ Hnp]. destruct Hnp.
      by apply Hpanic.
    + intros p rest err Hps Hp. rewrite Hps in Hc. simpl in Hc.
      by rewrite Hp in Hc.
  - split; [|done]. split; [by intros [f Hf]|].
    intros [(p & rest & jwk & Hps & Hp) _]. exfalso.
    rewrite Hps in Hc. simpl in Hc. rewrite Hp in Hc.
    destruct (collectProviders_keeps rest
                (<[conf.Id p := makeJwtProvider p jwk]> ∅) ∅ (conf.Id p) Hc)
      as [jp Hjp].
    { rewrite lookup_insert_eq. by eexists. }
    by rewrite lookup_empty in Hjp.
  - split.
    + split; [|by eexists]. intros _. split.
      * destruct (conf.Providers (conf.Auth serviceConfig)) as [|p rest].
        { simpl in Hc. injection Hc as <-. by destruct Hne. }
        simpl in Hc. destruct (fetchJwk (conf.JwksUri p)) as [jwk|e|] eqn:E.
        -- by exists p, rest, jwk.
        -- injection Hc as <-. by destruct Hne.
        -- discriminate Hc.
      * intros Hp. apply Hpanic in Hp. by rewrite Hp in Hc.
    + intros p rest err Hps Hp. exfalso. rewrite Hps in Hc. simpl in Hc.
      rewrite Hp in Hc. injection Hc as <-. by destruct Hne.
Qed.


(** X6.  Every provider of the emitted filter comes from a provider of the
    document with that id whose key set was fetched: it has its issuer; its
    inline key set is the JSON string of the fetched key set; it has no
    audiences when the provider's audiences string is empty; and in every
    case its audiences, joined by commas, are that string, none of them with
    a comma in it. *)
Theorem X6_provider_sound serviceConfig endpointApi f c id jp :
  makeJwtAuthnFilter (Some serviceConfig) endpointApi = Ok (Some f) ->
  hcm.Config f = Struct_JwtAuthentication c ->
  ac.Providers c !! id = Some jp ->
  exists p jwk,
    p ∈ conf.Providers (conf.Auth serviceConfig) /\
    conf.Id p = id /\
    ac.Issuer jp = conf.Issuer p /\
    fetchJwk (conf.JwksUri p) = Ok jwk /\
    ac.LocalJwks_InlineString jp = jsonString jwk /\
    (conf.Audiences p = "" -> ac.Audiences jp = []) /\
    (conf.Audiences p ≠ "" -> ac.Audiences jp ≠ []) /\
    Join (ac.Audiences jp) comma = conf.Audiences p /\
    Forall (fun aud => containsByte comma aud = false) (ac.Audiences jp).
Proof.
  intros Hf Hc Hjp.
  apply makeJwtAuthnFilter_Some in Hf as (providers & out & Hcoll & _ & -> & _).
  simpl in Hc. injection Hc as <-. cbn [ac.Providers] in Hjp.
  rewrite lookup_fmap in Hjp.
  destruct (providers !! id) as [jp0|] eqn:Hjp0; [|discriminate Hjp].
  injection Hjp as <-.
  destruct (collectProviders_inv _ _ _ _ _ Hcoll Hjp0)
    as [Hempty|(p & jwk & Hin & Hfetch & Hid & ->)].
  { by rewrite lookup_empty in Hempty. }
  exists p, jwk. do 5 (split; [done|]).
  unfold renderProvider, makeJwtProvider. cbn [ac.Audiences].
  destruct (conf.Audiences p) as [|a s] eqn:E; [by repeat split|].
  cbn [String.length Nat.eqb].
  split; [done|]. split; [intros _; apply Split_not_nil|].
  split; [apply Join_Split|apply Split_no_sep].
Qed.

(** What a requirement of the document becomes: a bare provider name when it
    has no audiences, and otherwise the provider with its audiences, the
    pieces of the audiences string between the commas. *)
Definition requirementOf (r : conf.AuthRequirement) (j : ac.JwtRequirement)
  : Prop :=
  (conf.Req_Audiences r = "" /\
   j = ac.JwtRequirement_ProviderName (conf.ProviderId r))
  \/
  (conf.Req_Audiences r ≠ "" /\
   exists auds,
     j = ac.JwtRequirement_ProviderAndAudiences (conf.ProviderId r) auds /\
     Join auds comma = conf.Req_Audiences r /\
     Forall (fun aud => containsByte comma aud = false) auds).

Lemma makeRequire_requirementOf r : requirementOf r (makeRequire r).
Proof.
  unfold requirementOf, makeRequire.
  destruct (String.eqb_spec (conf.Req_Audiences r) "") as [E|E]; [by left|].
  right. split; [done|]. eexists. split; [done|].
  split; [apply Join_Split|apply Split_no_sep].
Qed.

(** X7.  The requirement rules of the emitted filter stand, in order, for the
    authentication rules before the first one without requirements (for all
    of them when every rule has a requirement).  A rule with one requirement
    gives that requirement itself; a rule with several gives [RequiresAny]
    over all of them, in their order. *)
Theorem X7_requirement_rules serviceConfig endpointApi f c :
  makeJwtAuthnFilter (Some serviceConfig) endpointApi = Ok (Some f) ->
  hcm.Config f = Struct_JwtAuthentication c ->
  Forall2
    (fun rule ruleConfig =>
       match conf.Requirements rule with
       | [r] => requirementOf r (ac.Requires ruleConfig)
       | rs =>
           exists js,
             ac.Requires ruleConfig = ac.JwtRequirement_RequiresAny js /\
             Forall2 requirementOf rs js
       end)
    (rulesBeforeEmpty (conf.Rules (conf.Auth serviceConfig)))
    (ac.Rules c) /\
  ((forall rule, rule ∈ conf.Rules (conf.Auth serviceConfig) ->
                 conf.Requirements rule ≠ []) ->
   rulesBeforeEmpty (conf.Rules (conf.Auth serviceConfig))
   = conf.Rules (conf.Auth serviceConfig)).
Proof.
  intros Hf Hc.
  apply makeJwtAuthnFilter_Some in Hf as (providers & out & _ & _ & -> & Hout).
  simpl in Hc. injection Hc as <-. cbn [ac.Rules].
  split.
  - eapply Forall2_impl; [exact Hout|].
    intros rule ruleConfig (seg & _ & ->). cbn [ac.Requires]. unfold requiresOf.
    destruct (conf.Requirements rule) as [|r [|r' rs]].
    + exists []. by split.
    + apply makeRequire_requirementOf.
    + eexists. split; [done|].
      apply Forall2_fmap_r, Forall_Forall2_diag, Forall_forall.
      intros x _. apply makeRequire_requirementOf.
  - generalize (conf.Rules (conf.Auth serviceConfig)).
    intros rules Hall. induction rules as [|rule rules IH]; [done|].
    simpl. destruct (conf.Requirements rule) eqn:E.
    { destruct (Hall rule); [by left|done]. }
    rewrite IH; [done|]. intros rule' Hin. apply Hall. by right.
Qed.

(** X8.  The path of every requirement rule is [/<API name>/<segment>], where
    the segment has no dot in it and the rule's selector is either the
    segment or ends in a dot followed by the segment: the text after the last
    dot, the whole selector when it has no dot, nothing when it ends in
    one. *)
Theorem X8_jwt_path_segment serviceConfig endpointApi f c :
  makeJwtAuthnFilter (Some serviceConfig) endpointApi = Ok (Some f) ->
  hcm.Config f = Struct_JwtAuthentication c ->
  Forall2
    (fun rule ruleConfig =>
       exists segment,
         ac.Match ruleConfig
         = route.RouteMatch_Prefix
             ("/" +:+ api.Name endpointApi +:+ "/" +:+ segment) /\
         containsByte dot segment = false /\
         (conf.Auth_Selector rule = segment \/
          exists pre, conf.Auth_Selector rule = pre +:+ "." +:+ segment))
    (rulesBeforeEmpty (conf.Rules (conf.Auth serviceConfig)))
    (ac.Rules c).
Proof.
  intros Hf Hc.
  apply makeJwtAuthnFilter_Some in Hf as (providers & out & _ & _ & -> & Hout).
  simpl in Hc. injection Hc as <-. cbn [ac.Rules].
  eapply Forall2_impl; [exact Hout|].
  intros rule ruleConfig (seg & Hseg & ->). exists seg. split; [done|].
  by apply last_Split_suffix in Hseg.
Qed.

(** ** The service-control filter *)

Lemma keyed_panic_inv {X : Type} (target : X -> option string)
    (upd : X -> scpb.ServiceControlRule -> scpb.ServiceControlRule) xs m :
  foldM (keyedStep target upd) xs m = Panic ->
  exists x k, x ∈ xs /\ target x = Some k /\ m !! k = None.
Proof.
  revert m. induction xs as [|x xs IH]; intros m; [done|]. cbn [foldM].
  destruct (keyedStep target upd m x) as [m1|e|] eqn:E1; cbn [mbind Outcome_bind].
  - intros (y & k & Hy & Hty & Hk)%IH. exists y, k.
    split; [by right|]. split; [done|].
    by apply (keyedStep_dom target upd m x m1 k E1).
  - done.
  - intros _. unfold keyedStep in E1.
    destruct (target x) as [k|] eqn:Et; [|done].
    destruct (m !! k) eqn:Ek; [done|]. exists x, k. split; [by left|done].
Qed.

Lemma makeRulesMap_Panic_inv serviceConfig :
  makeRulesMap serviceConfig = Panic ->
  (exists h, h ∈ conf.Http_Rules serviceConfig /\
             bindingOf (annotations.Pattern h) ≠ None /\
             unmatched serviceConfig (annotations.Selector h))
  \/ (exists u, u ∈ conf.Usage_Rules serviceConfig /\
                unmatched serviceConfig (conf.Usage_Selector u)).
Proof.
  unfold makeRulesMap. rewrite http_loop_keyed.
  destruct (foldM _ (conf.Http_Rules serviceConfig) _) as [m1|e1|] eqn:E1;
    cbn [mbind Outcome_bind].
  - rewrite usage_loop_keyed. intros (u & k & Hu & [= <-] & Hk)%keyed_panic_inv.
    right. exists u. split; [done|]. apply seedRules_unmatched.
    by apply (keyed_dom _ _ _ _ _ _ E1).
  - done.
  - intros _. apply keyed_panic_inv in E1 as (h & k & Hh & Ht & Hk).
    left. exists h. unfold httpTarget in Ht.
    destruct (bindingOf (annotations.Pattern h)) eqn:Eb; [|done].
    injection Ht as <-. split; [done|]. split; [done|].
    by apply seedRules_unmatched.
Qed.

(** X9.  [makeServiceControlFilter] has three outcomes and no error: no
    filter exactly when the service name or the control environment is
    empty (no selector is looked up then); a panic exactly when both are
    there and a usage rule, or an HTTP rule with one of the five verb
    patterns, has a selector that names no method; the filter exactly when
    both are there and there is no such rule. *)
Theorem X9_service_control_outcomes serviceConfig :
  let stray :=
    (exists h, h ∈ conf.Http_Rules serviceConfig /\
               bindingOf (annotations.Pattern h) ≠ None /\
               unmatched serviceConfig (annotations.Selector h))
    \/ (exists u, u ∈ conf.Usage_Rules serviceConfig /\
                  unmatched serviceConfig (conf.Usage_Selector u)) in
  let named :=
    conf.Name serviceConfig ≠ "" /\
    conf.Control_Environment serviceConfig ≠ "" in
  (makeServiceControlFilter serviceConfig = Ok None <->
   conf.Name serviceConfig = "" \/ conf.Control_Environment serviceConfig = "")
  /\ (makeServiceControlFilter serviceConfig = Panic <-> named /\ stray)
  /\ ((exists f, makeServiceControlFilter serviceConfig = Ok (Some f))
      <-> named /\ ¬ stray).
Proof.
  intros stray named.
  destruct (decide (conf.Name serviceConfig = "")) as [Hn|Hn].
  { rewrite makeServiceControlFilter_disabled by by left.
    split; [by split; [left|]|]. split; split; try done.
    - by intros [[? _] _]. - by intros [? ?]. - by intros [[? _] _]. }
  destruct (decide (conf.Control_Environment serviceConfig = "")) as [He|He].
  { rewrite makeServiceControlFilter_disabled by by right.
    split; [by split; [right|]|]. split; split; try done.
    - by intros [[_ ?] _]. - by intros [? ?]. - by intros [[_ ?] _]. }
  rewrite makeServiceControlFilter_enabled by done.
  destruct (makeRulesMap serviceConfig) as [rulesMap|e|] eqn:E;
    cbn [mbind Outcome_bind].
  - assert (¬ stray) as Hns.
    { intros [(h & Hh & Hb & Hun)|(u & Hu & Hun)].
      + by rewrite (makeRulesMap_Panic_http _ h) in E.
      + by rewrite (makeRulesMap_Panic_usage _ u) in E. }
    split; [split; [done|by intros [?|?]]|].
    split; split; try done.
    + by intros [_ ?]. + by eexists.
  - by apply makeRulesMap_never_Err in E.
  - apply makeRulesMap_Panic_inv in E.
    split; [split; [done|by intros [?|?]]|].
    split; split; try done.
    + by intros [? ?]. + by intros [_ ?].
Qed.

Lemma makeRulesMap_dom_seed serviceConfig rulesMap :
  makeRulesMap serviceConfig = Ok rulesMap ->
  dom rulesMap
  = (list_to_set (selectorOf <$> methodsOf serviceConfig) : gset string).
Proof.
  intros Hm. apply set_eq. intros k.
  rewrite elem_of_dom, elem_of_list_to_set, list_elem_of_fmap. split.
  - intros [r Hr].
    destruct (seedRules serviceConfig !! k) as [r0|] eqn:E0.
    + apply seedRules_lookup_inv in E0 as (am & Hin & Hsel & _). by exists am.
    + apply (makeRulesMap_dom _ _ _ Hm) in E0. by rewrite Hr in E0.
  - intros (am & -> & Hin).
    destruct (rulesMap !! selectorOf am) eqn:E; [by eexists|].
    apply (makeRulesMap_dom _ _ _ Hm) in E.
    destruct (seedRules_lookup_in _ _ Hin) as [r Hr]. by rewrite Hr in E.
Qed.

(** X10.  Every rule of the emitted filter is the rule of an API method, the
    operation names of the rules are pairwise different, and there are as
    many rules as the methods of the document have different selectors. *)
Theorem X10_rules_are_the_methods serviceConfig f cfg :
  makeServiceControlFilter serviceConfig = Ok (Some f) ->
  hcm.Config f = Struct_FilterConfig cfg ->
  (forall r, r ∈ scpb.Rules cfg ->
     exists a method,
       a ∈ conf.Apis serviceConfig /\ method ∈ api.Methods a /\
       scpb.OperationName (scpb.Requires r)
       = Sprintf_selector (api.Name a) (api.Method_Name method)) /\
  NoDup ((fun r => scpb.OperationName (scpb.Requires r)) <$> scpb.Rules cfg) /\
  length (scpb.Rules cfg)
  = size (list_to_set (selectorOf <$> methodsOf serviceConfig) : gset string).
Proof.
  intros Hf Hc.
  apply makeServiceControlFilter_Some
    in Hf as (_ & _ & _ & rulesMap & cfg' & Hm & Hcfg & _ & Hrules).
  rewrite Hc in Hcfg. injection Hcfg as <-. rewrite Hrules.
  assert ((fun r => scpb.OperationName (scpb.Requires r)) <$> rulesOf rulesMap
          = (map_to_list rulesMap).*1) as Hnames.
  { unfold rulesOf. rewrite <- list_fmap_compose.
    apply Forall_fmap_ext_1, Forall_forall. intros [k r] Hin.
    apply elem_of_map_to_list in Hin. simpl.
    by destruct (makeRulesMap_requires _ _ _ _ Hm Hin). }
  split; [|split].
  - intros r [k Hk]%elem_of_rulesOf.
    destruct (makeRulesMap_requires _ _ _ _ Hm Hk) as [Hop _].
    assert (k ∈ dom rulesMap) as Hdom by (apply elem_of_dom; by eexists).
    rewrite (makeRulesMap_dom_seed _ _ Hm) in Hdom.
    apply elem_of_list_to_set, list_elem_of_fmap in Hdom
      as ([a method] & -> & [Ha Hme]%elem_of_methodsOf).
    by exists a, method.
  - rewrite Hnames. apply NoDup_fst_map_to_list.
  - unfold rulesOf. rewrite length_fmap.
    rewrite <- (makeRulesMap_dom_seed _ _ Hm), size_dom.
    apply length_map_to_list.
Qed.

(** X11.  A method that no usage rule names has, in its rule, no API-key
    requirement. *)
Theorem X11_no_usage_rule_no_api_key serviceConfig f a method :
  makeServiceControlFilter serviceConfig = Ok (Some f) ->
  a ∈ conf.Apis serviceConfig ->
  method ∈ api.Methods a ->
  (forall u, u ∈ conf.Usage_Rules serviceConfig ->
             conf.Usage_Selector u
             ≠ Sprintf_selector (api.Name a) (api.Method_Name method)) ->
  exists cfg r,
    hcm.Config f = Struct_FilterConfig cfg /\
    rulesFor (Sprintf_selector (api.Name a) (api.Method_Name method)) cfg = [r] /\
    scpb.ApiKey (scpb.Requires r) = None.
Proof.
  intros Hf Ha Hme Husage.
  apply makeServiceControlFilter_Some
    in Hf as (_ & _ & _ & rulesMap & cfg & Hm & Hcfg & _ & Hrules).
  destruct (final_rule_of_method _ _ _ _ Hm Ha Hme) as [r Hr].
  exists cfg, r. split; [done|]. split; [by eapply emitted_rule|].
  destruct (makeRulesMap_Ok _ _ Hm) as (m1 & H1 & H2).
  rewrite (keyed_untouched usageTarget usageUpd _ _ _ _ H2) in Hr.
  2:{ intros u Hu [= Hsel]. by apply (Husage u). }
  pose proof (keyed_preserve httpTarget httpUpd scpb.Requires
                _ _ _ (Sprintf_selector (api.Name a) (api.Method_Name method))
                httpUpd_Requires H1) as Hreq.
  rewrite Hr in Hreq.
  destruct (seedRules serviceConfig !! _) as [r0|] eqn:E0; [|done].
  simpl in Hreq. injection Hreq as ->.
  by apply seedRules_lookup_inv in E0 as (am & _ & _ & ->).
Qed.

(** The document with other HTTP rules. *)
Definition withHttpRules (serviceConfig : conf.Service)
    (rules : list annotations.HttpRule) : conf.Service :=
  {| conf.Name := conf.Name serviceConfig;
     conf.Apis := conf.Apis serviceConfig;
     conf.SourceInfo_SourceFiles := conf.SourceInfo_SourceFiles serviceConfig;
     conf.Auth := conf.Auth serviceConfig;
     conf.Usage_Rules := conf.Usage_Rules serviceConfig;
     conf.Http_Rules := rules;
     conf.Control_Environment := conf.Control_Environment serviceConfig |}.

Lemma http_loop_skips_unbound hs m :
  foldM applyHttpRule hs m
  = foldM applyHttpRule
      (filter (fun h => is_Some (bindingOf (annotations.Pattern h))) hs) m.
Proof.
  revert m. induction hs as [|h hs IH]; intros m; [done|].
  destruct (bindingOf (annotations.Pattern h)) as [p|] eqn:Eb.
  - rewrite filter_cons_True by (rewrite Eb; by eexists).
    cbn [foldM]. destruct (applyHttpRule m h); cbn [mbind Outcome_bind]; auto.
  - rewrite filter_cons_False by (rewrite Eb; by intros [? ?]).
    cbn [foldM].
    assert (applyHttpRule m h = Ok m) as ->.
    { unfold applyHttpRule. by destruct (annotations.Pattern h). }
    apply IH.
Qed.

(** X12.  HTTP rules with a custom or an unset pattern are passed over as if
    they were not in the document: the builder returns the same with and
    without them, also where their selectors name no method. *)
Theorem X12_unbound_http_rules_ignored serviceConfig :
  makeServiceControlFilter serviceConfig
  = makeServiceControlFilter
      (withHttpRules serviceConfig
         (filter (fun h => is_Some (bindingOf (annotations.Pattern h)))
                 (conf.Http_Rules serviceConfig))).
Proof.
  unfold makeServiceControlFilter, makeRulesMap. cbn.
  by rewrite <- http_loop_skips_unbound.
Qed.

(** X13.  Where several methods have one selector, the last of them in the
    order of the document gives the rule its default pattern: when no HTTP
    rule with one of the five verb patterns names the selector, the pattern
    is [POST /<api_name>/<method_name>] of that last method. *)
Theorem X13_last_method_seeds_pattern serviceConfig f before a method after :
  makeServiceControlFilter serviceConfig = Ok (Some f) ->
  methodsOf serviceConfig = before ++ (a, method) :: after ->
  (forall am, am ∈ after -> selectorOf am ≠ selectorOf (a, method)) ->
  (forall h, h ∈ conf.Http_Rules serviceConfig ->
             bindingOf (annotations.Pattern h) ≠ None ->
             annotations.Selector h ≠ selectorOf (a, method)) ->
  exists cfg r,
    hcm.Config f = Struct_FilterConfig cfg /\
    rulesFor (selectorOf (a, method)) cfg = [r] /\
    scpb.Pattern r
    = {| commonpb.UriTemplate :=
           "/" +:+ api.Name a +:+ "/" +:+ api.Method_Name method;
         commonpb.HttpMethod := "POST" |}.
Proof.
  intros Hf Hmethods Hlast Hhttp.
  apply makeServiceControlFilter_Some
    in Hf as (_ & _ & _ & rulesMap & cfg & Hm & Hcfg & _ & Hrules).
  destruct (makeRulesMap_Ok _ _ Hm) as (m1 & H1 & H2).
  assert (seedRules serviceConfig !! selectorOf (a, method)
          = Some (seedRule serviceConfig a method)) as Hseed.
  { rewrite seedRules_methodsOf, Hmethods.
    by apply (seed_fold_last serviceConfig before (a, method) after). }
  pose proof (keyed_preserve usageTarget usageUpd scpb.Pattern
                _ _ _ (selectorOf (a, method)) usageUpd_Pattern H2) as Hpat.
  rewrite (keyed_untouched httpTarget httpUpd _ _ _ _ H1), Hseed in Hpat.
  2:{ intros h Hh. unfold httpTarget.
      destruct (bindingOf (annotations.Pattern h)) eqn:Eb; [|done].
      intros [= Hsel]. apply (Hhttp h); [done|by rewrite Eb|done]. }
  destruct (rulesMap !! selectorOf (a, method)) as [r|] eqn:Er; [|done].
  simpl in Hpat. injection Hpat as Hpat.
  exists cfg, r. split; [done|]. split; [by eapply emitted_rule|done].
Qed.

(** ** Listener, snapshot and start-up *)

(** [makeListener] on an API whose source file tells the backend protocol:
    a panic when one of the two filter builders panics, a listener
    otherwise. *)
Lemma makeListener_cases serviceConfig endpointApi :
  strings.HasSuffix (api.SourceContext_FileName endpointApi) ".proto" = true
  \/ strings.HasSuffix (api.SourceContext_FileName endpointApi) ".yaml" = true ->
  (makeListener serviceConfig endpointApi = Panic /\
   (fetchPanics (conf.Providers (conf.Auth serviceConfig)) \/
    makeServiceControlFilter serviceConfig = Panic))
  \/
  (is_Ok (makeListener serviceConfig endpointApi) /\
   ¬ fetchPanics (conf.Providers (conf.Auth serviceConfig)) /\
   is_Ok (makeServiceControlFilter serviceConfig)).
Proof.
  intros Hsuffix.
  destruct (makeJwtAuthnFilter (Some serviceConfig) endpointApi)
    as [jwt|e|] eqn:Ejwt.
  - destruct (makeServiceControlFilter serviceConfig) as [scf|e|] eqn:Escf.
    + right. split; [|split].
      * apply makeListener_is_Ok; [done|by eexists..].
      * apply (makeJwtAuthnFilter_is_Ok serviceConfig endpointApi).
        by eexists.
      * by eexists.
    + by apply makeServiceControlFilter_never_Err in Escf.
    + left. split; [|by right]. unfold makeListener. rewrite Ejwt, Escf.
      destruct (strings.HasSuffix _ ".proto");
        [|destruct Hsuffix as [Hp|Hy]; [done|rewrite Hy]]; done.
  - by apply makeJwtAuthnFilter_never_Err in Ejwt.
  - left. split; [|left; by apply (makeJwtAuthnFilter_Panic _ endpointApi)].
    unfold makeListener. rewrite Ejwt.
    destruct (strings.HasSuffix _ ".proto");
      [|destruct Hsuffix as [Hp|Hy]; [done|rewrite Hy]]; done.
Qed.

(** X14.  [makeSnapshot] fails with its own message on a document without
    APIs, and with [unknown backend protocol] when the source file of the
    first API ends in neither [.proto] nor [.yaml], before any filter is
    built.  Otherwise it panics exactly when the collection of the key sets
    panics in a fetch or the service-control builder panics.  When neither
    does, [makeListener] returns a connection manager, and [makeSnapshot]
    returns the error of that manager's conversion by
    [util.MessageToStruct] when there is one, and a snapshot exactly when
    there is none. *)
Theorem X14_makeSnapshot_outcomes m serviceConfig :
  (conf.Apis serviceConfig = [] ->
   makeSnapshot m serviceConfig
   = Err "service config must have one api at least") /\
  (forall endpointApi rest,
      conf.Apis serviceConfig = endpointApi :: rest ->
      let fileName := api.SourceContext_FileName endpointApi in
      let known :=
        (exists pre, fileName = pre +:+ ".proto")
        \/ (exists pre, fileName = pre +:+ ".yaml") in
      (¬ known ->
       makeSnapshot m serviceConfig = Err "unknown backend protocol") /\
      (known ->
       (makeSnapshot m serviceConfig = Panic
        <-> fetchPanics (conf.Providers (conf.Auth serviceConfig))
            \/ makeServiceControlFilter serviceConfig = Panic) /\
       (¬ fetchPanics (conf.Providers (conf.Auth serviceConfig)) ->
        is_Ok (makeServiceControlFilter serviceConfig) ->
        exists l mgr,
          makeListener serviceConfig endpointApi = Ok (l, mgr) /\
          (forall e, makeSnapshot m serviceConfig = Err e
                     <-> MessageToStruct_err mgr = Some e) /\
          (is_Ok (makeSnapshot m serviceConfig)
           <-> MessageToStruct_err mgr = None)))).
Proof.
  split.
  { intros Hapis. unfold makeSnapshot. by rewrite Hapis. }
  intros endpointApi rest Hapis fileName known.
  assert (known <->
          strings.HasSuffix fileName ".proto" = true
          \/ strings.HasSuffix fileName ".yaml" = true) as Hknown.
  { unfold known. by rewrite !HasSuffix_spec. }
  split.
  { intros Hnk. unfold makeSnapshot. rewrite Hapis.
    rewrite makeListener_unknown_protocol; [done|..].
    - destruct (strings.HasSuffix _ ".proto") eqn:E; [|done].
      destruct Hnk. apply Hknown. by left.
    - destruct (strings.HasSuffix _ ".yaml") eqn:E; [|done].
      destruct Hnk. apply Hknown. by right. }
  intros Hk. apply Hknown in Hk.
  destruct (makeListener_cases serviceConfig endpointApi Hk)
    as [[Hl Hwhy]|([[l mgr] Hl] & Hnp & [scf Hscf])].
  - assert (makeSnapshot m serviceConfig = Panic) as Hsnap.
    { unfold makeSnapshot. by rewrite Hapis, Hl. }
    split; [by rewrite Hsnap|].
    intros Hnp [scf Hscf]. destruct Hwhy as [Hp|Hp]; [by destruct Hnp|].
    by rewrite Hp in Hscf.
  - unfold makeSnapshot. rewrite Hapis, Hl. cbn [mbind Outcome_bind].
    split.
    { destruct (MessageToStruct_err mgr); cbn [mbind Outcome_bind].
      - split; [done|]. intros [Hp|Hp]; [by destruct Hnp|].
        by rewrite Hp in Hscf.
      - split; [done|]. intros [Hp|Hp]; [by destruct Hnp|].
        by rewrite Hp in Hscf. }
    intros _ _. exists l, mgr. split; [done|].
    destruct (MessageToStruct_err mgr) as [e0|]; cbn [mbind Outcome_bind].
    + split.
      * intros e. split; [by intros [= ->]|by intros [= ->]].
      * split; [by intros [? ?]|done].
    + split; [done|]. split; [done|]. intros _. by eexists.
Qed.

(** X15.  A manager that [NewConfigManager] returns has the service name and
    the configuration id it was asked for, the document was fetched from the
    configuration URL of that name and id with the access token, and the
    cache answers for the node id of the flags with the snapshot built from
    that document, and for no other node id. *)
Theorem X15_NewConfigManager_publishes name id m' :
  NewConfigManager name id = Ok m' ->
  serviceName m' = name /\
  configID m' = id /\
  exists token serviceConfig snapshot,
    fetchAccessToken = Ok token /\
    callServiceManagement (fetchConfigURL name id) token = Ok serviceConfig /\
    makeSnapshot {| serviceName := name; configID := id;
                    cache := cache.NewSnapshotCache |} serviceConfig
    = Ok snapshot /\
    cache.GetSnapshot (cache m') (node flags) = Some snapshot /\
    (forall other, other ≠ node flags ->
                   cache.GetSnapshot (cache m') other = None).
Proof.
  unfold NewConfigManager.
  match goal with |- context [init ?m0] => set (m := m0) end.
  destruct (init_cases m) as [[err H]|[H|(sc & snap & Hf & Hs & H)]];
    rewrite H; [done|done|].
  intros [= <-]. do 2 (split; [done|]).
  unfold fetchConfig in Hf.
  destruct fetchAccessToken as [token|e|] eqn:Et; [|done..].
  exists token, sc, snap. do 3 (split; [done|]).
  cbn. rewrite String.eqb_refl. split; [done|].
  intros other Hne. apply String.eqb_neq in Hne.
  by rewrite String.eqb_sym, Hne.
Qed.

(** X16.  In a snapshot the listener binds the listener address of the flags
    and the one host of the cluster is the cluster address of the flags, each
    with its port flag reduced modulo 2^32: the flag itself when it lies in
    [0, 2^32), a number of that range in any case.  The cluster balances
    round-robin with the connect timeout of the flags. *)
Theorem X16_snapshot_addresses m serviceConfig snap :
  makeSnapshot m serviceConfig = Ok snap ->
  exists cluster l,
    cache.Items (cache.Clusters snap) = [cache.Resource_Cluster cluster] /\
    cache.Items (cache.Listeners snap) = [cache.Resource_Listener l] /\
    core.Address (v2.Address l) = listenerAddress flags /\
    core.PortValue (v2.Address l) = (listenerPort flags mod 2 ^ 32)%Z /\
    (0 <= core.PortValue (v2.Address l) < 2 ^ 32)%Z /\
    ((0 <= listenerPort flags < 2 ^ 32)%Z ->
     core.PortValue (v2.Address l) = listenerPort flags) /\
    v2.Hosts cluster
    = [ {| core.Address := clusterAddress flags;
           core.PortValue := (clusterPort flags mod 2 ^ 32)%Z |} ] /\
    ((0 <= clusterPort flags < 2 ^ 32)%Z ->
     (clusterPort flags mod 2 ^ 32)%Z = clusterPort flags) /\
    v2.LbPolicy cluster = v2.Cluster_ROUND_ROBIN /\
    v2.ConnectTimeout cluster = clusterConnectTimeout flags.
Proof.
  intros (endpointApi & rest & l & mgr & Hapis & Hl & _ & ->)%makeSnapshot_Ok.
  apply makeListener_Ok in Hl as (_ & jwt & scf & _ & _ & -> & _).
  eexists _, _. do 2 (split; [done|]). cbn. unfold uint32.
  split; [done|]. split; [done|].
  split; [apply Z.mod_pos_bound; lia|].
  split; [intros H; by apply Z.mod_small|].
  split; [done|]. split; [intros H; by apply Z.mod_small|]. done.
Qed.

End Builders.

(** * Example documents *)

(** Filter names standing for [ut.JwtAuthn] and [ut.ServiceControl]. *)
Definition ex_JwtAuthn : string := "jwt_authn".
Definition ex_ServiceControl : string := "service_control".

(** A key-set server that knows one URI; a request for a URI that does not
    parse is never built, and sending it panics. *)
Definition ex_fetchJwk (uri : string) : Outcome string :=
  if String.eqb uri "https://good/jwks" then Ok "{keys}"
  else if String.eqb uri "://nowhere" then Panic
  else Err "fetching JWK returns not 200 OK".

(** The key sets of the examples are ASCII text, which JSON keeps, and the
    conversion of their connection managers returns no error. *)
Definition ex_jsonString (s : string) : string := s.

Definition ex_MessageToStruct_err (httpManager : hcm.HttpConnectionManager)
  : option string := None.

(** The metadata server answers with a token, and the service-management
    server with the document below. *)
Definition ex_token : Outcome string := Ok "token".

Definition mkApi (name : string) (methods : list string) (fileName : string)
  : api.Api :=
  {| api.Name := name;
     api.Methods := (fun n => {| api.Method_Name := n |}) <$> methods;
     api.SourceContext_FileName := fileName |}.

Definition mkService (name : string) (apis : list api.Api)
    (http : list annotations.HttpRule) (usage : list conf.UsageRule)
    (environment : string) : conf.Service :=
  {| conf.Name := name;
     conf.Apis := apis;
     conf.SourceInfo_SourceFiles := [];
     conf.Auth := {| conf.Rules := []; conf.Providers := [] |};
     conf.Usage_Rules := usage;
     conf.Http_Rules := http;
     conf.Control_Environment := environment |}.

Definition ex_store : api.Api :=
  mkApi "shop.Store" ["List"; "Get"; "Create"] "store.proto".

Definition ex_good : conf.AuthProvider :=
  {| conf.Id := "good"; conf.Issuer := "issuer";
     conf.JwksUri := "https://good/jwks"; conf.Audiences := "aud1,aud2" |}.

Definition ex_bad : conf.AuthProvider :=
  {| conf.Id := "bad"; conf.Issuer := "issuer2";
     conf.JwksUri := "https://bad/jwks"; conf.Audiences := "" |}.

Definition ex_late : conf.AuthProvider :=
  {| conf.Id := "late"; conf.Issuer := "issuer3";
     conf.JwksUri := "https://good/jwks"; conf.Audiences := "" |}.

Definition ex_list_http : annotations.HttpRule :=
  {| annotations.Selector := "shop.Store.List";
     annotations.Pattern := annotations.HttpRule_Get "/v1/items" |}.

Definition ex_get_http : annotations.HttpRule :=
  {| annotations.Selector := "shop.Store.Get";
     annotations.Pattern := annotations.HttpRule_Get "/v1/items/{item}" |}.

Definition ex_list_usage : conf.UsageRule :=
  {| conf.Usage_Selector := "shop.Store.List";
     conf.AllowUnregisteredCalls := true |}.

(** A gRPC service with three methods, two HTTP bindings, one usage rule,
    three providers of which the second cannot be fetched, and two
    authentication rules, the second under a selector of another API. *)
Definition ex_doc : conf.Service :=
  {| conf.Name := "store.example.com";
     conf.Apis := [ex_store];
     conf.SourceInfo_SourceFiles :=
       [ Any_other "type.googleapis.com/google.api.HttpRule";
         Any_ConfigFile
           {| servicemanagement.FilePath := "api_descriptor.pb";
              servicemanagement.FileContents := "descriptor";
              servicemanagement.FileType :=
                servicemanagement.ConfigFile_FILE_DESCRIPTOR_SET_PROTO |} ];
     conf.Auth :=
       {| conf.Rules :=
            [ {| conf.Auth_Selector := "shop.Store.List";
                 conf.Requirements :=
                   [ {| conf.ProviderId := "good"; conf.Req_Audiences := "" |} ] |};
              {| conf.Auth_Selector := "other.Api.Create";
                 conf.Requirements :=
                   [ {| conf.ProviderId := "good"; conf.Req_Audiences := "a,b" |};
                     {| conf.ProviderId := "late"; conf.Req_Audiences := "" |} ] |} ];
          conf.Providers := [ex_good; ex_bad; ex_late] |};
     conf.Usage_Rules := [ex_list_usage];
     conf.Http_Rules := [ex_list_http; ex_get_http];
     conf.Control_Environment := "servicecontrol.googleapis.com" |}.

Definition ex_callServiceManagement (path token : string)
  : Outcome conf.Service := Ok ex_doc.

Definition ex_manager : ConfigManager :=
  {| serviceName := "store.example.com";
     configID := "2019-01-01r0";
     cache := cache.NewSnapshotCache |}.

(** A provider whose [jwks_uri] does not parse, after one whose key set is
    fetched. *)
Definition ex_broken : conf.AuthProvider :=
  {| conf.Id := "broken"; conf.Issuer := "issuer4";
     conf.JwksUri := "://nowhere"; conf.Audiences := "" |}.

Definition ex_doc_broken : conf.Service :=
  {| conf.Name := "store.example.com";
     conf.Apis := [ex_store];
     conf.SourceInfo_SourceFiles := [];
     conf.Auth := {| conf.Rules := []; conf.Providers := [ex_good; ex_broken] |};
     conf.Usage_Rules := [];
     conf.Http_Rules := [];
     conf.Control_Environment := "servicecontrol.googleapis.com" |}.

(** Two APIs whose methods share the selector [a.b.c]. *)
Definition ex_api_ab : api.Api := mkApi "a.b" ["c"] "ab.proto".
Definition ex_api_a : api.Api := mkApi "a" ["b.c"] "a.proto".

Definition ex_clash : conf.Service :=
  mkService "svc" [ex_api_ab; ex_api_a] [] [] "env".

(** One method, named by two usage rules and by two HTTP bindings. *)
Definition ex_api_m : api.Api := mkApi "a" ["m"] "a.yaml".

Definition ex_usage_first : conf.UsageRule :=
  {| conf.Usage_Selector := "a.m"; conf.AllowUnregisteredCalls := true |}.

Definition ex_usage_second : conf.UsageRule :=
  {| conf.Usage_Selector := "a.m"; conf.AllowUnregisteredCalls := false |}.

Definition ex_two_usage : conf.Service :=
  mkService "svc" [ex_api_m] [] [ex_usage_first; ex_usage_second] "env".

Definition ex_http_first : annotations.HttpRule :=
  {| annotations.Selector := "a.m";
     annotations.Pattern := annotations.HttpRule_Get "/x" |}.

Definition ex_http_second : annotations.HttpRule :=
  {| annotations.Selector := "a.m";
     annotations.Pattern := annotations.HttpRule_Post "/y" |}.

Definition ex_two_http : conf.Service :=
  mkService "svc" [ex_api_m] [ex_http_first; ex_http_second] [] "env".

(** Selectors that name no method: under a custom pattern, under a usage
    rule of a document without service name, and under a GET pattern. *)
Definition ex_http_custom : annotations.HttpRule :=
  {| annotations.Selector := "a.zzz";
     annotations.Pattern := annotations.HttpRule_Custom "HEAD" "/x" |}.

Definition ex_http_stray : annotations.HttpRule :=
  {| annotations.Selector := "a.zzz";
     annotations.Pattern := annotations.HttpRule_Get "/x" |}.

Definition ex_usage_stray : conf.UsageRule :=
  {| conf.Usage_Selector := "a.zzz"; conf.AllowUnregisteredCalls := true |}.

Definition ex_custom : conf.Service :=
  mkService "svc" [ex_api_m] [ex_http_custom] [] "env".

Definition ex_unnamed : conf.Service :=
  mkService "" [ex_api_m] [] [ex_usage_stray] "env".

Definition ex_stray : conf.Service :=
  mkService "svc" [ex_api_m] [ex_http_stray] [] "env".

(** An authentication rule without requirements before one with. *)
Definition ex_empty_rule_first : conf.Service :=
  {| conf.Name := "svc";
     conf.Apis := [ex_api_m];
     conf.SourceInfo_SourceFiles := [];
     conf.Auth :=
       {| conf.Rules :=
            [ {| conf.Auth_Selector := "a.open"; conf.Requirements := [] |};
              {| conf.Auth_Selector := "a.m";
                 conf.Requirements :=
                   [ {| conf.ProviderId := "good"; conf.Req_Audiences := "" |} ] |} ];
          conf.Providers := [ex_good] |};
     conf.Usage_Rules := [];
     conf.Http_Rules := [];
     conf.Control_Environment := "env" |}.

(** * The theorems on the example documents *)

(** Case analysis on membership in a list that is written out. *)
Ltac finite_cases H :=
  repeat (apply elem_of_cons in H; destruct H as [H|H]; [subst|]);
  try (apply elem_of_nil in H; contradiction).

(** ** What the builders return on the examples *)

Lemma ex_doc_filter_built :
  exists f, makeServiceControlFilter ex_ServiceControl ex_doc = Ok (Some f).
Proof. eexists. vm_compute. reflexivity. Qed.

Lemma ex_create_unbound h :
  h ∈ conf.Http_Rules ex_doc -> annotations.Selector h ≠ "shop.Store.Create".
Proof. intros Hin. finite_cases Hin; discriminate. Qed.

Lemma ex_create_unique a' method' :
  a' ∈ conf.Apis ex_doc -> method' ∈ api.Methods a' ->
  Sprintf_selector (api.Name a') (api.Method_Name method') = "shop.Store.Create" ->
  api.Name a' = "shop.Store" /\ api.Method_Name method' = "Create".
Proof.
  intros Ha' Hm' Hsel. finite_cases Ha'. cbn in Hm'.
  finite_cases Hm'; vm_compute in Hsel; try discriminate Hsel. done.
Qed.

(** The one rule of [ex_clash]: seeded by the method [b.c] of the API [a]. *)
Lemma ex_clash_built :
  exists f cfg,
    makeServiceControlFilter ex_ServiceControl ex_clash = Ok (Some f) /\
    hcm.Config f = Struct_FilterConfig cfg /\
    scpb.Rules cfg
    = [ {| scpb.Pattern :=
             {| commonpb.UriTemplate := "/a/b.c"; commonpb.HttpMethod := "POST" |};
           scpb.Requires :=
             {| scpb.Req_ServiceName := "svc";
                scpb.OperationName := "a.b.c";
                scpb.ApiKey := None |} |} ].
Proof.
  do 2 eexists. split; [vm_compute; reflexivity|].
  split; [reflexivity|]. vm_compute. reflexivity.
Qed.

(** The one rule of [ex_two_usage]: the second usage rule decided. *)
Lemma ex_two_usage_built :
  exists f cfg,
    makeServiceControlFilter ex_ServiceControl ex_two_usage = Ok (Some f) /\
    hcm.Config f = Struct_FilterConfig cfg /\
    scpb.Rules cfg
    = [ {| scpb.Pattern :=
             {| commonpb.UriTemplate := "/a/m"; commonpb.HttpMethod := "POST" |};
           scpb.Requires :=
             {| scpb.Req_ServiceName := "svc";
                scpb.OperationName := "a.m";
                scpb.ApiKey :=
                  Some {| scpb.ApiKeys :=
                            [scpb.APIKey_Query "key";
                             scpb.APIKey_Header "x-api-key"];
                          scpb.AllowWithoutApiKey := false |} |} |} ].
Proof.
  do 2 eexists. split; [vm_compute; reflexivity|].
  split; [reflexivity|]. vm_compute. reflexivity.
Qed.

(** The one rule of [ex_two_http]: the second binding decided. *)
Lemma ex_two_http_built :
  exists f cfg,
    makeServiceControlFilter ex_ServiceControl ex_two_http = Ok (Some f) /\
    hcm.Config f = Struct_FilterConfig cfg /\
    scpb.Rules cfg
    = [ {| scpb.Pattern :=
             {| commonpb.UriTemplate := "/y"; commonpb.HttpMethod := "POST" |};
           scpb.Requires :=
             {| scpb.Req_ServiceName := "svc";
                scpb.OperationName := "a.m";
                scpb.ApiKey := None |} |} ].
Proof.
  do 2 eexists. split; [vm_compute; reflexivity|].
  split; [reflexivity|]. vm_compute. reflexivity.
Qed.

Lemma ex_m_in_api_m :
  ex_api_m ∈ [ex_api_m] /\ {| api.Method_Name := "m" |} ∈ api.Methods ex_api_m.
Proof. split; apply list_elem_of_here. Qed.

Lemma ex_zzz_unmatched http usage name :
  unmatched (mkService name [ex_api_m] http usage "env") "a.zzz".
Proof.
  intros a method Ha Hm. cbn in Ha. finite_cases Ha. cbn in Hm.
  finite_cases Hm. discriminate.
Qed.

Lemma ex_listener_built :
  exists l mgr,
    makeListener defaultFlags ex_JwtAuthn ex_ServiceControl ex_fetchJwk
                 ex_jsonString ex_doc ex_store = Ok (l, mgr) /\
    hcm.Name <$> hcm.HttpFilters mgr
    = [ex_JwtAuthn; ex_ServiceControl; util.GRPCJSONTranscoder; util.Router].
Proof.
  do 2 eexists. split; [vm_compute; reflexivity|]. vm_compute. reflexivity.
Qed.

Lemma ex_snapshot_built :
  exists snap mgr name c,
    makeSnapshot defaultFlags ex_JwtAuthn ex_ServiceControl ex_fetchJwk
                 ex_jsonString ex_MessageToStruct_err ex_manager ex_doc
    = Ok snap /\
    mgr ∈ snapshotManagers snap /\
    {| hcm.Name := name; hcm.Config := Struct_JwtAuthentication c |}
      ∈ hcm.HttpFilters mgr /\
    ac.Match <$> ac.Rules c
    = [route.RouteMatch_Prefix "/shop.Store/List";
       route.RouteMatch_Prefix "/shop.Store/Create"].
Proof.
  do 4 eexists.
  split; [vm_compute; reflexivity|].
  split; [vm_compute; apply list_elem_of_here|].
  split; [vm_compute; apply list_elem_of_here|].
  vm_compute. reflexivity.
Qed.

Lemma ex_good_fetched : is_Ok (ex_fetchJwk (conf.JwksUri ex_good)).
Proof. eexists. vm_compute. reflexivity. Qed.

Lemma ex_bad_not_fetched :
  ex_fetchJwk (conf.JwksUri ex_bad) = Err "fetching JWK returns not 200 OK".
Proof. vm_compute. reflexivity. Qed.

Lemma ex_config_fetched :
  fetchConfig defaultFlags ex_token ex_callServiceManagement ex_manager
              (configID ex_manager)
  = Ok ex_doc.
Proof. reflexivity. Qed.

(** ** Service-control rules *)

(** C1 at [ex_doc]: the method [Create], which no HTTP binding names, has its
    one rule, with the default pattern. *)
Lemma C1_witness :
  exists f cfg r,
    makeServiceControlFilter ex_ServiceControl ex_doc = Ok (Some f) /\
    hcm.Config f = Struct_FilterConfig cfg /\
    rulesFor "shop.Store.Create" cfg = [r] /\
    scpb.OperationName (scpb.Requires r) = "shop.Store.Create" /\
    scpb.Req_ServiceName (scpb.Requires r) = "store.example.com" /\
    scpb.Pattern r
    = {| commonpb.UriTemplate := "/shop.Store/Create";
         commonpb.HttpMethod := "POST" |}.
Proof.
  destruct ex_doc_filter_built as [f Hf]. exists f.
  destruct (C1_one_rule_per_method ex_ServiceControl ex_doc f ex_store
              {| api.Method_Name := "Create" |} Hf)
    as (cfg & r & Hcfg & Hone & Hop & Hsn & Hpat).
  { apply list_elem_of_here. }
  { do 2 apply list_elem_of_further. apply list_elem_of_here. }
  exists cfg, r.
  split; [exact Hf|]. split; [exact Hcfg|]. split; [exact Hone|].
  split; [exact Hop|]. split; [exact Hsn|].
  apply Hpat; [apply ex_create_unbound|apply ex_create_unique].
Defined.

(** The claim C1 as the spec states it fails at [ex_clash]: the method [c] of
    the API [a.b] has no HTTP binding, and the one rule for its selector has
    the pattern [POST /a/b.c], not [POST /a.b/c]. *)
Lemma C1_counterexample :
  ¬ (forall f a method,
       makeServiceControlFilter ex_ServiceControl ex_clash = Ok (Some f) ->
       a ∈ conf.Apis ex_clash ->
       method ∈ api.Methods a ->
       (forall h, h ∈ conf.Http_Rules ex_clash ->
                  annotations.Selector h
                  ≠ Sprintf_selector (api.Name a) (api.Method_Name method)) ->
       exists cfg r,
         hcm.Config f = Struct_FilterConfig cfg /\
         r ∈ scpb.Rules cfg /\
         scpb.OperationName (scpb.Requires r)
         = Sprintf_selector (api.Name a) (api.Method_Name method) /\
         scpb.Pattern r
         = {| commonpb.UriTemplate :=
                Sprintf_path (api.Name a) (api.Method_Name method);
              commonpb.HttpMethod := "POST" |}).
Proof.
  intros claim.
  destruct ex_clash_built as (f & cfg & Hf & Hcfg & Hrules).
  destruct (claim f ex_api_ab {| api.Method_Name := "c" |} Hf)
    as (cfg' & r & Hcfg' & Hin & Hop & Hpat); clear claim Hf.
  { apply list_elem_of_here. }
  { apply list_elem_of_here. }
  { intros h Hh. by apply elem_of_nil in Hh. }
  rewrite Hcfg in Hcfg'. injection Hcfg' as <-. rewrite Hrules in Hin.
  apply list_elem_of_singleton in Hin. subst r. discriminate Hpat.
Qed.

(** C5 at [ex_doc]: the usage rule for [List]. *)
Lemma C5_witness :
  exists f cfg r,
    makeServiceControlFilter ex_ServiceControl ex_doc = Ok (Some f) /\
    hcm.Config f = Struct_FilterConfig cfg /\
    rulesFor "shop.Store.List" cfg = [r] /\
    scpb.ApiKey (scpb.Requires r)
    = Some {| scpb.ApiKeys :=
                [scpb.APIKey_Query "key"; scpb.APIKey_Header "x-api-key"];
              scpb.AllowWithoutApiKey := true |}.
Proof.
  destruct ex_doc_filter_built as [f Hf]. exists f.
  destruct (C5_usage_rule_api_key ex_ServiceControl ex_doc f [] ex_list_usage []
              Hf eq_refl)
    as (_ & cfg & r & Hcfg & Hone & Hkey).
  { intros u' Hu'. by apply elem_of_nil in Hu'. }
  exists cfg, r.
  split; [exact Hf|]. split; [exact Hcfg|]. split; [exact Hone|exact Hkey].
Defined.

(** The claim C5 as the spec states it fails at [ex_two_usage]: the first of
    the two usage rules for [a.m] allows unregistered calls, and the emitted
    rule for [a.m] does not. *)
Lemma C5_counterexample :
  ¬ (forall f u,
       makeServiceControlFilter ex_ServiceControl ex_two_usage = Ok (Some f) ->
       u ∈ conf.Usage_Rules ex_two_usage ->
       (exists a method,
           a ∈ conf.Apis ex_two_usage /\ method ∈ api.Methods a /\
           Sprintf_selector (api.Name a) (api.Method_Name method)
           = conf.Usage_Selector u) ->
       exists cfg r,
         hcm.Config f = Struct_FilterConfig cfg /\
         r ∈ scpb.Rules cfg /\
         scpb.OperationName (scpb.Requires r) = conf.Usage_Selector u /\
         scpb.ApiKey (scpb.Requires r)
         = Some {| scpb.ApiKeys :=
                     [scpb.APIKey_Query "key"; scpb.APIKey_Header "x-api-key"];
                   scpb.AllowWithoutApiKey := conf.AllowUnregisteredCalls u |}).
Proof.
  intros claim.
  destruct ex_two_usage_built as (f & cfg & Hf & Hcfg & Hrules).
  destruct (claim f ex_usage_first Hf)
    as (cfg' & r & Hcfg' & Hin & Hop & Hkey); clear claim Hf.
  { apply list_elem_of_here. }
  { exists ex_api_m, {| api.Method_Name := "m" |}.
    split; [apply ex_m_in_api_m|]. split; [apply ex_m_in_api_m|reflexivity]. }
  rewrite Hcfg in Hcfg'. injection Hcfg' as <-. rewrite Hrules in Hin.
  apply list_elem_of_singleton in Hin. subst r. discriminate Hkey.
Qed.

(** C6 at [ex_doc]: the binding of [Get]. *)
Lemma C6_witness :
  exists f cfg r,
    makeServiceControlFilter ex_ServiceControl ex_doc = Ok (Some f) /\
    hcm.Config f = Struct_FilterConfig cfg /\
    rulesFor "shop.Store.Get" cfg = [r] /\
    scpb.Pattern r
    = {| commonpb.UriTemplate := "/v1/items/{item}";
         commonpb.HttpMethod := "GET" |}.
Proof.
  destruct ex_doc_filter_built as [f Hf]. exists f.
  destruct (C6_http_binding_pattern ex_ServiceControl ex_doc f
              [ex_list_http] ex_get_http [] _ Hf eq_refl eq_refl)
    as (cfg & r & Hcfg & Hone & Hpat).
  { intros h' Hh'. by apply elem_of_nil in Hh'. }
  exists cfg, r.
  split; [exact Hf|]. split; [exact Hcfg|]. split; [exact Hone|exact Hpat].
Defined.

(** The claim C6 as the spec states it fails at [ex_two_http]: the first of
    the two bindings of [a.m] is [GET /x], and the emitted rule for [a.m] has
    the pattern of the second, [POST /y]. *)
Lemma C6_counterexample :
  ¬ (forall f h p,
       makeServiceControlFilter ex_ServiceControl ex_two_http = Ok (Some f) ->
       h ∈ conf.Http_Rules ex_two_http ->
       bindingOf (annotations.Pattern h) = Some p ->
       (exists a method,
           a ∈ conf.Apis ex_two_http /\ method ∈ api.Methods a /\
           Sprintf_selector (api.Name a) (api.Method_Name method)
           = annotations.Selector h) ->
       exists cfg r,
         hcm.Config f = Struct_FilterConfig cfg /\
         r ∈ scpb.Rules cfg /\
         scpb.OperationName (scpb.Requires r) = annotations.Selector h /\
         scpb.Pattern r = p).
Proof.
  intros claim.
  destruct ex_two_http_built as (f & cfg & Hf & Hcfg & Hrules).
  destruct (claim f ex_http_first _ Hf (list_elem_of_here _ _) eq_refl)
    as (cfg' & r & Hcfg' & Hin & Hop & Hpat); clear claim Hf.
  { exists ex_api_m, {| api.Method_Name := "m" |}.
    split; [apply ex_m_in_api_m|]. split; [apply ex_m_in_api_m|reflexivity]. }
  rewrite Hcfg in Hcfg'. injection Hcfg' as <-. rewrite Hrules in Hin.
  apply list_elem_of_singleton in Hin. subst r. discriminate Hpat.
Qed.

(** C9 at [ex_stray]: a GET binding under a selector that names no method. *)
Lemma C9_witness :
  makeServiceControlFilter ex_ServiceControl ex_stray = Panic /\
  forall serviceConfig' e,
    makeServiceControlFilter ex_ServiceControl serviceConfig' ≠ Err e.
Proof.
  apply (C9_unmatched_selector_panics ex_ServiceControl ex_stray).
  - discriminate.
  - discriminate.
  - left. exists ex_http_stray. split; [apply list_elem_of_here|].
    split; [discriminate|]. apply ex_zzz_unmatched.
Defined.

(** The claim C9 as the spec states it fails twice: [ex_custom] has an
    [http.rules] entry whose selector names no method, under a custom pattern,
    and the filter is built; [ex_unnamed] has a [usage.rules] entry whose
    selector names no method, and no service name, and the builder returns no
    filter. *)
Lemma C9_counterexample :
  ((exists h, h ∈ conf.Http_Rules ex_custom /\
              unmatched ex_custom (annotations.Selector h)) /\
   exists f, makeServiceControlFilter ex_ServiceControl ex_custom = Ok (Some f)) /\
  ((exists u, u ∈ conf.Usage_Rules ex_unnamed /\
              unmatched ex_unnamed (conf.Usage_Selector u)) /\
   makeServiceControlFilter ex_ServiceControl ex_unnamed = Ok None).
Proof.
  split; split.
  - exists ex_http_custom. split; [apply list_elem_of_here|].
    apply ex_zzz_unmatched.
  - eexists. vm_compute. reflexivity.
  - exists ex_usage_stray. split; [apply list_elem_of_here|].
    apply ex_zzz_unmatched.
  - reflexivity.
Qed.

(** ** Listener, snapshot and start-up *)

(** C3 at [ex_doc]: all four filters, in order. *)
Lemma C3_witness :
  exists l mgr,
    makeListener defaultFlags ex_JwtAuthn ex_ServiceControl ex_fetchJwk
                 ex_jsonString ex_doc ex_store = Ok (l, mgr) /\
    hcm.Name <$> hcm.HttpFilters mgr
    = [ex_JwtAuthn; ex_ServiceControl; util.GRPCJSONTranscoder; util.Router] /\
    last (hcm.HttpFilters mgr)
    = Some {| hcm.Name := util.Router; hcm.Config := Struct_empty |}.
Proof.
  destruct ex_listener_built as (l & mgr & Hl & Hnames). exists l, mgr.
  destruct (C3_filter_order defaultFlags ex_JwtAuthn ex_ServiceControl
              ex_fetchJwk ex_jsonString ex_doc ex_store l mgr Hl)
    as (jwt & scf & _ & _ & _ & _ & _ & _ & Hlast).
  split; [exact Hl|]. split; [exact Hnames|exact Hlast].
Defined.

(** C2 at [ex_doc]. *)
Lemma C2_witness :
  exists snap cluster,
    makeSnapshot defaultFlags ex_JwtAuthn ex_ServiceControl ex_fetchJwk
                 ex_jsonString ex_MessageToStruct_err ex_manager ex_doc
    = Ok snap /\
    cache.Version (cache.Clusters snap) = "2019-01-01r0" /\
    cache.Items (cache.Clusters snap) = [cache.Resource_Cluster cluster] /\
    v2.Name cluster = "shop.Store" /\
    forall mgr' c, mgr' ∈ snapshotManagers snap -> c ∈ routedClusters mgr' ->
                   c ∈ snapshotClusterNames snap.
Proof.
  destruct ex_snapshot_built as (snap & _ & _ & _ & Hs & _). exists snap.
  destruct (C2_snapshot_shape defaultFlags ex_JwtAuthn ex_ServiceControl
              ex_fetchJwk ex_jsonString ex_MessageToStruct_err
              ex_manager ex_doc snap ltac:(discriminate) Hs)
    as (endpointApi & rest & cluster & l & mgr & vh & Hapis & _ & Hv & _ & _ & _
        & _ & Hitems & Hname & _ & _ & _ & _ & Hin).
  injection Hapis as <- <-. exists cluster.
  split; [exact Hs|]. split; [exact Hv|]. split; [exact Hitems|].
  split; [exact Hname|exact Hin].
Defined.

(** C10 at [ex_doc]: the second authentication rule has the selector
    [other.Api.Create], and its path is under the first API, [shop.Store]. *)
Lemma C10_witness :
  exists c,
    ac.Match <$> ac.Rules c
    = [route.RouteMatch_Prefix "/shop.Store/List";
       route.RouteMatch_Prefix "/shop.Store/Create"] /\
    Forall2
      (fun rule ruleConfig =>
         exists segment,
           last (strings.Split (conf.Auth_Selector rule) dot) = Some segment /\
           ac.Match ruleConfig
           = route.RouteMatch_Prefix ("/" +:+ "shop.Store" +:+ "/" +:+ segment))
      (rulesBeforeEmpty (conf.Rules (conf.Auth ex_doc)))
      (ac.Rules c).
Proof.
  destruct ex_snapshot_built as (snap & mgr & name & c & Hs & Hmgr & Hf & Hpaths).
  exists c. split; [exact Hpaths|].
  exact (C10_jwt_rule_path defaultFlags ex_JwtAuthn ex_ServiceControl
           ex_fetchJwk ex_jsonString ex_MessageToStruct_err
           ex_manager ex_doc snap ex_store [] mgr name c
           eq_refl Hs Hmgr Hf).
Defined.

(** C7 at [ex_doc]: [ex_good] is fetched, the fetch for [ex_bad] returns an
    error, and [ex_late], whose key set could be fetched, is never asked
    for. *)
Lemma C7_witness :
  exists providers,
    collectProviders ex_fetchJwk [ex_good] ∅ = Ok providers /\
    collectProviders ex_fetchJwk [ex_good; ex_bad; ex_late] ∅ = Ok providers /\
    dom providers = ({["good"]} : gset string) /\
    exists f c,
      makeJwtAuthnFilter ex_JwtAuthn ex_fetchJwk ex_jsonString (Some ex_doc)
                         ex_store
      = Ok (Some f) /\
      hcm.Config f = Struct_JwtAuthentication c /\
      ac.Providers c = renderProvider ex_jsonString <$> providers.
Proof.
  destruct (C7_jwks_failure_aborts ex_JwtAuthn ex_fetchJwk ex_jsonString
              ex_doc ex_store [ex_good] ex_bad [ex_late]
              "fetching JWK returns not 200 OK" eq_refl)
    as (providers & Hfirst & Hall & Hdom & _ & Hsome & _).
  { constructor; [apply ex_good_fetched|constructor]. }
  { apply ex_bad_not_fetched. }
  exists providers. split; [exact Hfirst|]. split; [exact Hall|].
  split.
  { rewrite Hdom. clear. cbn. apply (right_id_L ∅ (∪)). }
  apply Hsome. clear. discriminate.
Defined.

(** C8 at [ex_manager]: with a token and the document [ex_doc], [init]
    publishes the snapshot built from it, once, into the empty cache; where
    no access token can be had it returns an error and leaves the cache as
    it was. *)
Lemma C8_witness :
  (exists snapshot m',
      makeSnapshot defaultFlags ex_JwtAuthn ex_ServiceControl ex_fetchJwk
                   ex_jsonString ex_MessageToStruct_err ex_manager ex_doc
      = Ok snapshot /\
      init defaultFlags ex_JwtAuthn ex_ServiceControl ex_fetchJwk
           ex_token ex_callServiceManagement ex_jsonString
           ex_MessageToStruct_err ex_manager
      = (Ok tt, m') /\
      cache m' = [("api_proxy", snapshot)]) /\
  (exists err,
      init defaultFlags ex_JwtAuthn ex_ServiceControl ex_fetchJwk
           (Err "metadata server unreachable") ex_callServiceManagement
           ex_jsonString ex_MessageToStruct_err ex_manager
      = (Err err, ex_manager)).
Proof.
  split.
  - destruct ex_snapshot_built as (snapshot & _ & _ & _ & Hs & _).
    destruct (C8_no_partial_publication defaultFlags ex_JwtAuthn
                ex_ServiceControl ex_fetchJwk ex_token
                ex_callServiceManagement ex_jsonString ex_MessageToStruct_err
                ex_manager) as (_ & _ & _ & _ & _ & Hpublish & _).
    destruct (Hpublish ex_doc snapshot ex_config_fetched Hs)
      as (m' & Hinit & _ & _ & Hcache).
    exists snapshot, m'. split; [exact Hs|]. split; [exact Hinit|exact Hcache].
  - destruct (C8_no_partial_publication defaultFlags ex_JwtAuthn
                ex_ServiceControl ex_fetchJwk
                (Err "metadata server unreachable") ex_callServiceManagement
                ex_jsonString ex_MessageToStruct_err ex_manager)
      as (Hfetch & _).
    apply (Hfetch "fail to get access token"). reflexivity.
Defined.

(** C4: the code stops where the claim goes on.  In [ex_empty_rule_first] the
    first authentication rule has no requirement and the second has one; the
    filter is emitted, over the one provider, and it has no requirement rule
    at all: the second rule was never processed. *)
Theorem C4_empty_rule_ends_the_loop :
  exists c providers,
    makeJwtAuthnFilter ex_JwtAuthn ex_fetchJwk ex_jsonString
                       (Some ex_empty_rule_first) ex_api_m
    = Ok (Some {| hcm.Name := ex_JwtAuthn;
                  hcm.Config := Struct_JwtAuthentication c |}) /\
    (length <$> (conf.Requirements <$> conf.Rules (conf.Auth ex_empty_rule_first)))
    = [0%nat; 1%nat] /\
    collectProviders ex_fetchJwk [ex_good] ∅ = Ok providers /\
    ac.Providers c = renderProvider ex_jsonString <$> providers /\
    ac.Rules c = [].
Proof.
  do 2 eexists. split; [vm_compute; reflexivity|]. split; [reflexivity|].
  split; [vm_compute; reflexivity|].
  split; [vm_compute; reflexivity|reflexivity].
Qed.

(** * Further properties: key-set fetches and the snapshot *)

Lemma makeListener_same_outcome flags JwtAuthn ServiceControl
    (fetchJwk1 fetchJwk2 : string -> Outcome string) jsonString
    serviceConfig endpointApi :
  let run fetchJwk :=
    makeListener flags JwtAuthn ServiceControl fetchJwk jsonString
                 serviceConfig endpointApi in
  ¬ fetchPanics fetchJwk1 (conf.Providers (conf.Auth serviceConfig)) ->
  ¬ fetchPanics fetchJwk2 (conf.Providers (conf.Auth serviceConfig)) ->
  (forall e, run fetchJwk1 = Err e -> run fetchJwk2 = Err e) /\
  (run fetchJwk1 = Panic -> run fetchJwk2 = Panic) /\
  (is_Ok (run fetchJwk1) -> is_Ok (run fetchJwk2)).
Proof.
  intros run Hnp1 Hnp2. unfold run.
  destruct (strings.HasSuffix (api.SourceContext_FileName endpointApi) ".proto")
    eqn:Ep;
    [|destruct (strings.HasSuffix (api.SourceContext_FileName endpointApi)
                                  ".yaml") eqn:Ey].
  3:{ rewrite !makeListener_unknown_protocol by done.
      split; [done|]. split; [done|]. by intros [? ?]. }
  all: assert (strings.HasSuffix (api.SourceContext_FileName endpointApi)
                                 ".proto" = true
               \/ strings.HasSuffix (api.SourceContext_FileName endpointApi)
                                    ".yaml" = true) as Hsuffix by auto.
  all: destruct (makeListener_cases flags JwtAuthn ServiceControl fetchJwk1
                   jsonString serviceConfig endpointApi Hsuffix)
         as [[H1 [Hp1|Hscf1]]|([lm1 H1] & _ & [scf1 Hscf1])];
         [by destruct Hnp1| |].
  all: destruct (makeListener_cases flags JwtAuthn ServiceControl fetchJwk2
                   jsonString serviceConfig endpointApi Hsuffix)
         as [[H2 [Hp2|Hscf2]]|([lm2 H2] & _ & [scf2 Hscf2])];
         [by destruct Hnp2| |].
  all: try (rewrite Hscf1 in Hscf2; discriminate Hscf2).
  all: rewrite H1, H2.
  all: split; [done|]; split; [done|];
    first [by intros [? ?]|intros _; by eexists].
Qed.

(** X17.  As long as no key-set fetch panics, what the fetches answer never
    decides whether the listener is built: with any two key-set servers
    neither of which panics in a fetch that the loop reaches,
    [makeListener] returns the same error, or panics with both, or returns
    a listener with both.  A fetch that returns an error costs the JWT
    authentication, not the listener. *)
Theorem X17_jwks_errors_never_fatal flags JwtAuthn ServiceControl
    (fetchJwk1 fetchJwk2 : string -> Outcome string) jsonString
    serviceConfig endpointApi :
  let run fetchJwk :=
    makeListener flags JwtAuthn ServiceControl fetchJwk jsonString
                 serviceConfig endpointApi in
  ¬ fetchPanics fetchJwk1 (conf.Providers (conf.Auth serviceConfig)) ->
  ¬ fetchPanics fetchJwk2 (conf.Providers (conf.Auth serviceConfig)) ->
  (forall e, run fetchJwk1 = Err e <-> run fetchJwk2 = Err e) /\
  (run fetchJwk1 = Panic <-> run fetchJwk2 = Panic) /\
  (is_Ok (run fetchJwk1) <-> is_Ok (run fetchJwk2)).
Proof.
  intros run Hnp1 Hnp2.
  destruct (makeListener_same_outcome flags JwtAuthn ServiceControl
              fetchJwk1 fetchJwk2 jsonString serviceConfig endpointApi
              Hnp1 Hnp2) as (He12 & Hp12 & Ho12).
  destruct (makeListener_same_outcome flags JwtAuthn ServiceControl
              fetchJwk2 fetchJwk1 jsonString serviceConfig endpointApi
              Hnp2 Hnp1) as (He21 & Hp21 & Ho21).
  split; [|split]; split; auto.
Qed.

(** * The further properties on the example documents *)

Lemma ex_doc_filter_config :
  exists f cfg,
    makeServiceControlFilter ex_ServiceControl ex_doc = Ok (Some f) /\
    hcm.Config f = Struct_FilterConfig cfg.
Proof. do 2 eexists. split; [vm_compute; reflexivity|reflexivity]. Qed.

Lemma ex_clash_filter_built :
  exists f, makeServiceControlFilter ex_ServiceControl ex_clash = Ok (Some f).
Proof. eexists. vm_compute. reflexivity. Qed.

Lemma ex_jwt_built :
  exists f c jp,
    makeJwtAuthnFilter ex_JwtAuthn ex_fetchJwk ex_jsonString (Some ex_doc)
                       ex_store
    = Ok (Some f) /\
    hcm.Config f = Struct_JwtAuthentication c /\
    ac.Providers c !! "good" = Some jp.
Proof.
  do 3 eexists. split; [vm_compute; reflexivity|].
  split; [reflexivity|]. vm_compute. reflexivity.
Qed.

Lemma ex_manager_built :
  exists m',
    NewConfigManager defaultFlags ex_JwtAuthn ex_ServiceControl ex_fetchJwk
      ex_token ex_callServiceManagement ex_jsonString ex_MessageToStruct_err
      "store.example.com" "2019-01-01r0"
    = Ok m'.
Proof. eexists. vm_compute. reflexivity. Qed.

Lemma X1_witness :
  fetchConfigURL defaultFlags "store.example.com" "2019-01-01r0"
  = "https://servicemanagement.googleapis.com/v1/services/store.example.com/configs/2019-01-01r0?view=FULL".
Proof.
  exact (X1_fetchConfigURL_expected defaultFlags "store.example.com"
           "2019-01-01r0" eq_refl eq_refl).
Defined.

Lemma X2_witness :
  makeTranscoderFilter ex_doc ex_store
  = Some {| hcm.Name := util.GRPCJSONTranscoder;
            hcm.Config :=
              Struct_GrpcJsonTranscoder
                {| tc.ProtoDescriptorBin := "descriptor";
                   tc.Services := ["shop.Store"] |} |}.
Proof.
  destruct (X2_transcoder_first_descriptor ex_doc ex_store) as [_ Hfirst].
  apply (Hfirst [Any_other "type.googleapis.com/google.api.HttpRule"]
           (Any_ConfigFile
              {| servicemanagement.FilePath := "api_descriptor.pb";
                 servicemanagement.FileContents := "descriptor";
                 servicemanagement.FileType :=
                   servicemanagement.ConfigFile_FILE_DESCRIPTOR_SET_PROTO |})
           []).
  - reflexivity.
  - constructor; [discriminate|constructor].
  - reflexivity.
Defined.


Lemma ex_doc_fetches_return :
  ¬ fetchPanics ex_fetchJwk (conf.Providers (conf.Auth ex_doc)).
Proof.
  intros Hp. apply (collectProviders_Panic ex_fetchJwk _ ∅) in Hp.
  vm_compute in Hp. discriminate Hp.
Qed.

Lemma ex_broken_fetch_panics :
  fetchPanics ex_fetchJwk (conf.Providers (conf.Auth ex_doc_broken)).
Proof.
  exists [ex_good], ex_broken, []. split; [reflexivity|].
  split; [|reflexivity]. constructor; [apply ex_good_fetched|constructor].
Qed.

(** X3 at [ex_doc_broken]: the key set of [ex_good] is fetched, and the
    fetch for [ex_broken] panics. *)
Lemma X3_witness :
  makeJwtAuthnFilter ex_JwtAuthn ex_fetchJwk ex_jsonString
                     (Some ex_doc_broken) ex_store
  = Panic.
Proof.
  destruct (X3_makeJwtAuthnFilter_outcomes ex_JwtAuthn ex_fetchJwk
              ex_jsonString ex_doc_broken ex_store)
    as (_ & _ & Hpanic & _).
  apply Hpanic, ex_broken_fetch_panics.
Defined.

(** X4 at [ex_doc], whose first provider is [ex_good]. *)
Lemma X4_witness :
  exists f,
    makeJwtAuthnFilter ex_JwtAuthn ex_fetchJwk ex_jsonString (Some ex_doc)
                       ex_store
    = Ok (Some f).
Proof.
  destruct (X4_jwt_filter_iff_first_fetch ex_JwtAuthn ex_fetchJwk
              ex_jsonString ex_doc ex_store) as [[_ Hemitted] _].
  apply Hemitted. split.
  - exists ex_good, [ex_bad; ex_late], "{keys}". split; reflexivity.
  - apply ex_doc_fetches_return.
Defined.


Lemma X6_witness :
  exists jp p,
    p ∈ conf.Providers (conf.Auth ex_doc) /\
    conf.Id p = "good" /\
    ac.Issuer jp = conf.Issuer p /\
    ex_fetchJwk (conf.JwksUri p) = Ok (ac.LocalJwks_InlineString jp) /\
    Join (ac.Audiences jp) comma = conf.Audiences p.
Proof.
  destruct ex_jwt_built as (f & c & jp & Hf & Hc & Hjp).
  destruct (X6_provider_sound ex_JwtAuthn ex_fetchJwk ex_jsonString ex_doc
              ex_store f c "good" jp Hf Hc Hjp)
    as (p & jwk & Hin & Hid & Hiss & Hfetch & Hjwk & _ & _ & Haud & _).
  exists jp, p.
  split; [exact Hin|]. split; [exact Hid|]. split; [exact Hiss|].
  split; [|exact Haud]. rewrite Hjwk. exact Hfetch.
Defined.

Lemma X7_witness :
  rulesBeforeEmpty (conf.Rules (conf.Auth ex_doc))
  = conf.Rules (conf.Auth ex_doc).
Proof.
  destruct ex_jwt_built as (f & c & jp & Hf & Hc & _).
  destruct (X7_requirement_rules ex_JwtAuthn ex_fetchJwk ex_jsonString
              ex_doc ex_store f c Hf Hc) as [_ Hall].
  apply Hall. clear. intros rule Hin. cbn in Hin.
  finite_cases Hin; discriminate.
Defined.

Lemma X8_witness :
  exists c,
    Forall2
      (fun rule ruleConfig =>
         exists segment,
           ac.Match ruleConfig
           = route.RouteMatch_Prefix ("/" +:+ "shop.Store" +:+ "/" +:+ segment)
           /\ containsByte dot segment = false
           /\ (conf.Auth_Selector rule = segment \/
               exists pre, conf.Auth_Selector rule = pre +:+ "." +:+ segment))
      (rulesBeforeEmpty (conf.Rules (conf.Auth ex_doc)))
      (ac.Rules c).
Proof.
  destruct ex_jwt_built as (f & c & jp & Hf & Hc & _). exists c.
  exact (X8_jwt_path_segment ex_JwtAuthn ex_fetchJwk ex_jsonString
           ex_doc ex_store f c Hf Hc).
Defined.

Lemma X10_witness :
  exists f cfg,
    makeServiceControlFilter ex_ServiceControl ex_doc = Ok (Some f) /\
    hcm.Config f = Struct_FilterConfig cfg /\
    length (scpb.Rules cfg) = 3%nat.
Proof.
  destruct ex_doc_filter_config as (f & cfg & Hf & Hc). exists f, cfg.
  destruct (X10_rules_are_the_methods ex_ServiceControl ex_doc f cfg Hf Hc)
    as (_ & _ & Hlen).
  split; [exact Hf|]. split; [exact Hc|].
  rewrite Hlen. clear. vm_compute. reflexivity.
Defined.

Lemma X11_witness :
  exists f cfg r,
    makeServiceControlFilter ex_ServiceControl ex_doc = Ok (Some f) /\
    hcm.Config f = Struct_FilterConfig cfg /\
    rulesFor "shop.Store.Get" cfg = [r] /\
    scpb.ApiKey (scpb.Requires r) = None.
Proof.
  destruct ex_doc_filter_built as [f Hf]. exists f.
  destruct (X11_no_usage_rule_no_api_key ex_ServiceControl ex_doc f ex_store
              {| api.Method_Name := "Get" |} Hf)
    as (cfg & r & Hcfg & Hone & Hkey).
  { apply list_elem_of_here. }
  { apply list_elem_of_further, list_elem_of_here. }
  { clear Hf. intros u Hu. finite_cases Hu. discriminate. }
  exists cfg, r.
  split; [exact Hf|]. split; [exact Hcfg|]. split; [exact Hone|exact Hkey].
Defined.

Lemma X13_witness :
  exists f cfg r,
    makeServiceControlFilter ex_ServiceControl ex_clash = Ok (Some f) /\
    hcm.Config f = Struct_FilterConfig cfg /\
    rulesFor "a.b.c" cfg = [r] /\
    scpb.Pattern r
    = {| commonpb.UriTemplate := "/a/b.c"; commonpb.HttpMethod := "POST" |}.
Proof.
  destruct ex_clash_filter_built as [f Hf]. exists f.
  destruct (X13_last_method_seeds_pattern ex_ServiceControl ex_clash f
              [(ex_api_ab, {| api.Method_Name := "c" |})]
              ex_api_a {| api.Method_Name := "b.c" |} [] Hf eq_refl)
    as (cfg & r & Hcfg & Hone & Hpat).
  { clear Hf. intros am Ham. by apply elem_of_nil in Ham. }
  { clear Hf. intros h Hh. by apply elem_of_nil in Hh. }
  exists cfg, r.
  split; [exact Hf|]. split; [exact Hcfg|]. split; [exact Hone|exact Hpat].
Defined.

(** X14 at [ex_doc], whose snapshot is built, and at [ex_doc_broken], where
    the second provider's [jwks_uri] does not parse. *)
Lemma X14_witness :
  is_Ok (makeSnapshot defaultFlags ex_JwtAuthn ex_ServiceControl ex_fetchJwk
                      ex_jsonString ex_MessageToStruct_err ex_manager ex_doc)
  /\ makeSnapshot defaultFlags ex_JwtAuthn ex_ServiceControl ex_fetchJwk
                  ex_jsonString ex_MessageToStruct_err ex_manager ex_doc_broken
     = Panic.
Proof.
  split.
  - destruct (X14_makeSnapshot_outcomes defaultFlags ex_JwtAuthn
                ex_ServiceControl ex_fetchJwk ex_jsonString
                ex_MessageToStruct_err ex_manager ex_doc) as [_ Hapi].
    destruct (Hapi ex_store [] eq_refl) as [_ Hknown].
    destruct Hknown as (_ & Hok).
    { left. exists "store". reflexivity. }
    destruct Hok as (l & mgr & _ & _ & Hsnap).
    { apply ex_doc_fetches_return. }
    { destruct ex_doc_filter_built as [f Hf]. exists (Some f). exact Hf. }
    apply Hsnap. reflexivity.
  - destruct (X14_makeSnapshot_outcomes defaultFlags ex_JwtAuthn
                ex_ServiceControl ex_fetchJwk ex_jsonString
                ex_MessageToStruct_err ex_manager ex_doc_broken) as [_ Hapi].
    destruct (Hapi ex_store [] eq_refl) as [_ Hknown].
    destruct Hknown as (Hpanic & _).
    { left. exists "store". reflexivity. }
    apply Hpanic. left. apply ex_broken_fetch_panics.
Defined.

(** X17 at [ex_doc]: the key-set server of the examples and one that answers
    every request with an error. *)
Lemma X17_witness :
  is_Ok (makeListener defaultFlags ex_JwtAuthn ex_ServiceControl
                      (fun _ => Err "connection refused") ex_jsonString
                      ex_doc ex_store).
Proof.
  destruct (X17_jwks_errors_never_fatal defaultFlags ex_JwtAuthn
              ex_ServiceControl ex_fetchJwk (fun _ => Err "connection refused")
              ex_jsonString ex_doc ex_store) as (_ & _ & Hok).
  - apply ex_doc_fetches_return.
  - intros (ps1 & p & ps2 & _ & _ & Hp). discriminate Hp.
  - apply Hok. destruct ex_listener_built as (l & mgr & Hl & _).
    exists (l, mgr). exact Hl.
Defined.

Lemma X15_witness :
  exists m' snapshot,
    serviceName m' = "store.example.com" /\
    configID m' = "2019-01-01r0" /\
    cache.GetSnapshot (cache m') "api_proxy" = Some snapshot /\
    cache.GetSnapshot (cache m') "other_proxy" = None.
Proof.
  destruct ex_manager_built as [m' Hm']. exists m'.
  destruct (X15_NewConfigManager_publishes defaultFlags ex_JwtAuthn
              ex_ServiceControl ex_fetchJwk ex_token ex_callServiceManagement
              ex_jsonString ex_MessageToStruct_err
              "store.example.com" "2019-01-01r0" m' Hm')
    as (Hname & Hid & token & sc & snap & _ & _ & _ & Hget & Hother).
  exists snap. split; [exact Hname|]. split; [exact Hid|].
  split; [exact Hget|]. apply Hother. clear. discriminate.
Defined.

Lemma X16_witness :
  exists snap l,
    cache.Items (cache.Listeners snap) = [cache.Resource_Listener l] /\
    core.Address (v2.Address l) = "0.0.0.0" /\
    core.PortValue (v2.Address l) = 8080%Z.
Proof.
  destruct ex_snapshot_built as (snap & _ & _ & _ & Hs & _). exists snap.
  destruct (X16_snapshot_addresses defaultFlags ex_JwtAuthn ex_ServiceControl
              ex_fetchJwk ex_jsonString ex_MessageToStruct_err
              ex_manager ex_doc snap Hs)
    as (cluster & l & _ & Hl & Haddr & _ & _ & Hport & _).
  exists l. split; [exact Hl|]. split; [exact Haddr|].
  apply Hport. clear. cbn. lia.
Defined.
